(** * The caching subsystem of the 3D Tech Store backend

    A shallow embedding of [backend/simple_cache.py] (the in-process cache
    manager) and [backend/cache.py] (the Redis cache manager), together with
    the response-caching decorator [cache_response] and the key derivation
    [_generate_key] that both modules share.

    Conventions.
    - A Python value is a [value]; Python's [None] is the constructor [VNone],
      so that a function returning [Optional[Any]] returns a [value] and a
      stored [None] cannot be told apart from an absent entry, as in the code.
    - [time.time()] is an input of every operation that reads the clock: the
      argument [now] is the [float] the call returns.  A [float] is an IEEE
      754 binary64 number ([Float]), with the rounding of its sums and the
      [OverflowError] of the conversion of an [int] beyond its range.
    - The in-process dictionary [self.cache] is a [gmap string cache_entry].
    - The coroutines are run to completion one after the other: a call is a
      function from the state before it to its result and the state after. *)

From Stdlib Require Import Ascii ZArith Lia SpecFloat.
From Stdlib Require OrderedTypeEx.
From stdpp Require Import gmap strings list fin_maps sorting pretty.

Local Open Scope string_scope.

(** ** Python values *)

#[warnings="-register-all"]
Inductive value : Type :=
| VNone
| VBool (b : bool)
| VInt (n : Z)
| VStr (s : string)
| VList (items : list value)
| VDict (items : list (string * value)).

(** [x is None] *)
Definition is_none (v : value) : bool :=
  match v with VNone => true | _ => false end.

(** Structural induction on values, with the induction hypothesis for every
    item of a list and for every value of a dictionary. *)
Section value_induction.
Variable P : value → Prop.
Hypothesis HNone : P VNone.
Hypothesis HBool : ∀ b, P (VBool b).
Hypothesis HInt : ∀ n, P (VInt n).
Hypothesis HStr : ∀ s, P (VStr s).
Hypothesis HList : ∀ items, Forall P items → P (VList items).
Hypothesis HDict : ∀ items, Forall (λ kv, P kv.2) items → P (VDict items).

Fixpoint value_nested_ind (v : value) : P v :=
  match v with
  | VNone => HNone
  | VBool b => HBool b
  | VInt n => HInt n
  | VStr s => HStr s
  | VList items =>
      HList items
        ((fix go (l : list value) : Forall P l :=
            match l with
            | [] => Forall_nil_2 P
            | x :: l' => Forall_cons_2 P x l' (value_nested_ind x) (go l')
            end) items)
  | VDict items =>
      HDict items
        ((fix go (l : list (string * value)) : Forall (λ kv, P kv.2) l :=
            match l with
            | [] => Forall_nil_2 _
            | kv :: l' =>
                Forall_cons_2 (λ kv, P kv.2) kv l'
                  (value_nested_ind kv.2) (go l')
            end) items)
  end.
End value_induction.

(** The result of a call that may raise an exception. *)
Inductive outcome (A : Type) : Type :=
| Returned (a : A)
| Raised (e : string).
Arguments Returned {A} a.
Arguments Raised {A} e.

(** ** Python's [float]

    A [float] is an IEEE 754 binary64 number: a signed zero, an infinity, a
    NaN, or [(-1)^s * m * 2^e] with a mantissa of at most 53 bits.  The
    operations are those of the standard specification of binary64
    arithmetic, with rounding to nearest, ties to even. *)

Definition float : Type := spec_float.

Module Float.

Definition prec : Z := 53.
Definition emax : Z := 1024.

(** The float nearest to the integer [n]; an infinity when [n] is beyond the
    range of the finite floats. *)
Definition rounded (n : Z) : float := binary_normalize prec emax n 0 false.

(** The conversion of an [int] to a [float] ([PyLong_AsDouble]): the nearest
    float, or [OverflowError]. *)
Definition of_int (n : Z) : outcome float :=
  match rounded n with
  | S754_infinity _ => Raised "int too large to convert to float"
  | x => Returned x
  end.

(** [x + y] on floats; it does not raise. *)
Definition add (x y : float) : float := SFadd prec emax x y.

(** [x + n] for a float [x] and an [int] [n]: [float.__add__] converts [n]
    and adds. *)
Definition add_int (x : float) (n : Z) : outcome float :=
  match of_int n with
  | Returned y => Returned (add x y)
  | Raised e => Raised e
  end.

(** [x > y] *)
Definition gtb (x y : float) : bool := SFltb y x.

(** [x <= y] *)
Definition leb (x y : float) : bool := SFleb x y.

(** A float of magnitude below [2^52]: a zero, or a finite float of the
    format whose exponent is negative.  The readings of a clock that counts
    the seconds since 1970 are of this kind. *)
Definition small (x : float) : bool :=
  match x with
  | S754_zero _ => true
  | S754_finite _ m e => bounded prec emax m e && (e <=? -1)%Z
  | _ => false
  end.

End Float.

Arguments Float.rounded : simpl never.
Arguments Float.of_int : simpl never.
Arguments Float.add : simpl never.
Arguments Float.add_int : simpl never.
Arguments Float.gtb : simpl never.
Arguments Float.leb : simpl never.
Arguments Float.small : simpl never.

(** *** Rounding, for the proofs about sums

    The exponent of the format for a number of [d] binary digits above the
    exponent 0. *)
Definition fexp64 (d : Z) : Z := fexp Float.prec Float.emax d.

(** The float that rounding gives once the mantissa has been brought to
    the exponent [e0] of the format and rounded to [m2]: the mantissa is
    shifted once more when the rounding has carried. *)
Definition rounded_float (s : bool) (m2 e0 : Z) : float :=
  let k2 := Z.max 0 (fexp64 (Zdigits2 m2 + e0) - e0) in
  match (m2 / 2 ^ k2)%Z with
  | Z0 => S754_zero s
  | Zpos m3 =>
      if (e0 + k2 <=? Float.emax - Float.prec)%Z
      then S754_finite s m3 (e0 + k2)
      else S754_infinity s
  | Zneg _ => S754_nan
  end.

(** The mantissa and the exponent of a float of magnitude at least 1. *)
Definition at_least_one (my : positive) (ey : Z) : Prop :=
  (0 <= ey)%Z ∨ (2 ^ (- ey) <= Zpos my)%Z.

(** ** The in-process cache manager ([simple_cache.py]) *)

Module Simple.

(** One entry of [self.cache]: the dictionary with the keys ['data'],
    ['expires_at'] and ['created_at']. *)
Record cache_entry : Type := CacheEntry {
  data : value;
  expires_at : float;
  created_at : float
}.

(** [SimpleCacheManager]: the fields [cache] and [connected]. *)
Record SimpleCacheManager : Type := Manager {
  cache : gmap string cache_entry;
  connected : bool
}.

(** [__init__] *)
Definition init : SimpleCacheManager :=
  {| cache := ∅; connected := true |}.

(** [connect] *)
Definition connect (self : SimpleCacheManager) : SimpleCacheManager :=
  {| cache := ∅; connected := true |}.

(** [disconnect] *)
Definition disconnect (self : SimpleCacheManager) : SimpleCacheManager :=
  {| cache := ∅; connected := false |}.

(** [get]: the value returned and the manager after the call. *)
Definition get (now : float) (key : string) (self : SimpleCacheManager)
  : value * SimpleCacheManager :=
  if negb (connected self) then (VNone, self)
  else
    match cache self !! key with
    | Some cache_entry =>
        let current_time := now in
        if Float.gtb current_time (expires_at cache_entry)
        then (VNone, {| cache := base.delete key (cache self);
                        connected := connected self |})
        else (data cache_entry, self)
    | None => (VNone, self)
    end.

(** [set]: the entry is built before it is assigned, so that when the sum
    [current_time + expire] raises, the handler of the [try] returns
    [False] and the store is as it was. *)
Definition set (now : float) (key : string) (val : value) (expire : Z)
    (self : SimpleCacheManager) : bool * SimpleCacheManager :=
  if negb (connected self) then (false, self)
  else
    let current_time := now in
    match Float.add_int current_time expire with
    | Returned sum =>
        (true,
         {| cache := <[key := {| data := val;
                                 expires_at := sum;
                                 created_at := current_time |}]> (cache self);
            connected := connected self |})
    | Raised e => (false, self)
    end.

(** The default of the parameter [expire]. *)
Definition default_expire : Z := 300.

(** [delete] *)
Definition delete (key : string) (self : SimpleCacheManager)
  : bool * SimpleCacheManager :=
  if negb (connected self) then (false, self)
  else
    (true,
     {| cache := if decide (is_Some (cache self !! key))
                 then base.delete key (cache self) else cache self;
        connected := connected self |}).

(** [key.startswith(prefix)] *)
Fixpoint startswith (key prefix : string) : bool :=
  match prefix, key with
  | EmptyString, _ => true
  | String p prefix', String k key' =>
      if Ascii.eqb p k then startswith key' prefix' else false
  | String _ _, EmptyString => false
  end.

(** [pattern.replace("*", "")]: every occurrence of the character is
    dropped. *)
Fixpoint replace_star (pattern : string) : string :=
  match pattern with
  | EmptyString => EmptyString
  | String c rest =>
      if Ascii.eqb c "*"%char then replace_star rest
      else String c (replace_star rest)
  end.

(** ["*" in pattern]: the pattern has a wildcard. *)
Fixpoint has_star (pattern : string) : bool :=
  match pattern with
  | EmptyString => false
  | String c rest => Ascii.eqb c "*"%char || has_star rest
  end.

(** [for key in keys: del self.cache[key]] *)
Definition del_all (keys : list string) (c : gmap string cache_entry)
  : gmap string cache_entry :=
  foldl (λ m key, base.delete key m) c keys.

(** [clear_pattern] *)
Definition clear_pattern (pattern : string) (self : SimpleCacheManager)
  : bool * SimpleCacheManager :=
  if negb (connected self) then (false, self)
  else if String.eqb pattern "*" then
    (true, {| cache := ∅; connected := connected self |})
  else
    let pattern_prefix := replace_star pattern in
    let keys_to_delete :=
      filter (λ key, startswith key pattern_prefix = true)
             (fst <$> map_to_list (cache self)) in
    (true, {| cache := del_all keys_to_delete (cache self);
              connected := connected self |}).

(** [_cleanup_expired] *)
Definition _cleanup_expired (now : float) (self : SimpleCacheManager)
  : SimpleCacheManager :=
  let current_time := now in
  let expired_keys :=
    fst <$> filter (λ kv, Float.gtb current_time (expires_at (snd kv)) = true)
                   (map_to_list (cache self)) in
  {| cache := del_all expired_keys (cache self);
     connected := connected self |}.

(** No [get] of [key] returns a value other than [None], whatever the
    clock. *)
Definition never_hits (key : string) (self : SimpleCacheManager) : Prop :=
  ∀ now : float, (get now key self).1 = VNone.

(** The result of [get_cache_stats]: the entries ["status"] and ["keys"] of
    the dictionary it returns.  (The other entries are constant markers and
    the ["memory_used"] estimate, a formatted float.) *)
Record cache_stats : Type := Stats {
  status : string;
  keys : nat
}.

(** [get_cache_stats], on the manager [cache_manager]. *)
Definition get_cache_stats (now : float) (cache_manager : SimpleCacheManager)
  : cache_stats * SimpleCacheManager :=
  if negb (connected cache_manager)
  then ({| status := "disconnected"; keys := 0 |}, cache_manager)
  else
    let cache_manager' := _cleanup_expired now cache_manager in
    let total_keys := size (cache cache_manager') in
    ({| status := "connected"; keys := total_keys |}, cache_manager').

(** [invalidate_product_cache], on the manager [cache_manager]: the results
    of the two calls are dropped. *)
Definition invalidate_product_cache (cache_manager : SimpleCacheManager)
  : SimpleCacheManager :=
  let '(_, m1) := clear_pattern "products:*" cache_manager in
  let '(_, m2) := clear_pattern "product:*" m1 in
  m2.

(** [invalidate_user_cache(user_id)] *)
Definition invalidate_user_cache (user_id : string)
    (cache_manager : SimpleCacheManager) : SimpleCacheManager :=
  (clear_pattern ("user:" +:+ user_id +:+ ":*") cache_manager).2.

End Simple.

(** ** JSON serialisation ([json.dumps] with [sort_keys=True]) *)

Module Json.

Definition dquote : ascii := "034"%char.
Definition backslash : ascii := "092"%char.

Definition hex_digit (n : N) : ascii :=
  match n with
  | 0 => "0" | 1 => "1" | 2 => "2" | 3 => "3" | 4 => "4" | 5 => "5"
  | 6 => "6" | 7 => "7" | 8 => "8" | 9 => "9" | 10 => "a" | 11 => "b"
  | 12 => "c" | 13 => "d" | 14 => "e" | _ => "f"
  end%N%char.

(** The replacement of one character by [json.encoder]'s
    [py_encode_basestring_ascii]: the table [ESCAPE_DCT], the printable
    characters from the space to the tilde unchanged, a [\uXXXX] escape for
    the others.  A character of a [string] stands for the code point of the
    same number (below 256). *)
Definition escape_char (c : ascii) : string :=
  let n := N_of_ascii c in
  if (n =? 92)%N then String backslash (String backslash EmptyString)
  else if (n =? 34)%N then String backslash (String dquote EmptyString)
  else if (n =? 8)%N then String backslash "b"
  else if (n =? 12)%N then String backslash "f"
  else if (n =? 10)%N then String backslash "n"
  else if (n =? 13)%N then String backslash "r"
  else if (n =? 9)%N then String backslash "t"
  else if ((32 <=? n) && (n <=? 126))%N then String c EmptyString
  else String backslash
         (String "u" (String "0" (String "0"
            (String (hex_digit (n / 16)) (String (hex_digit (n mod 16))
               EmptyString))))).

Fixpoint escape_body (s : string) : string :=
  match s with
  | EmptyString => EmptyString
  | String c rest => escape_char c +:+ escape_body rest
  end.

(** [json.dumps] of a [str] (with [ensure_ascii], the default). *)
Definition encode_basestring_ascii (s : string) : string :=
  String dquote (escape_body s +:+ String dquote EmptyString).

(** [sep.join(parts)] *)
Fixpoint join (sep : string) (parts : list string) : string :=
  match parts with
  | [] => EmptyString
  | [x] => x
  | x :: rest => x +:+ sep +:+ join sep rest
  end.

(** The order of [sorted(dct.items())]: the items of a dictionary have
    pairwise distinct keys, so that tuples are ordered by their keys, and
    [str] keys by their code points. *)
Definition item_le {A} (a b : string * A) : Prop :=
  String.leb a.1 b.1 = true.

#[global] Instance item_le_dec {A} (a b : string * A) : Decision (item_le a b).
Proof. unfold item_le. apply _. Defined.

(** [sorted(items)] *)
Definition sorted_items {A} (items : list (string * A)) : list (string * A) :=
  merge_sort item_le items.

(** [json.dumps(obj, sort_keys=True)], for the JSON-serialisable values of
    [value]: separators [", "] and [": "], the keys of every dictionary in
    sorted order.  The encoder sorts the items of a dictionary and then
    encodes each value; here the values are encoded first and the encoded
    items sorted, which is the same list as the order only looks at keys
    ([sorted_items_encode]). *)
Fixpoint dumps_sorted (obj : value) : string :=
  match obj with
  | VNone => "null"
  | VBool true => "true"
  | VBool false => "false"
  | VInt n => pretty n
  | VStr s => encode_basestring_ascii s
  | VList items =>
      "[" +:+ join ", " (dumps_sorted <$> items) +:+ "]"
  | VDict items =>
      "{" +:+
      join ", "
        ((λ kv : string * string,
            encode_basestring_ascii kv.1 +:+ ": " +:+ kv.2)
           <$> sorted_items ((λ kv, (kv.1, dumps_sorted kv.2)) <$> items))
      +:+ "}"
  end.

(** The dictionaries of [obj], at every depth, have pairwise distinct keys
    (as every Python [dict] has). *)
Fixpoint distinct_keys (obj : value) : bool :=
  match obj with
  | VList items => forallb distinct_keys items
  | VDict items =>
      bool_decide (NoDup items.*1)
      && forallb (λ kv : string * value, distinct_keys kv.2) items
  | _ => true
  end.

(** Two values with the same content: their dictionaries hold the same
    key-value pairs, at every depth, whatever the order in which the pairs
    were inserted. *)
#[warnings="-register-all"]
Inductive same_pairs : value → value → Prop :=
| same_none : same_pairs VNone VNone
| same_bool b : same_pairs (VBool b) (VBool b)
| same_int n : same_pairs (VInt n) (VInt n)
| same_str s : same_pairs (VStr s) (VStr s)
| same_list l1 l2 :
    Forall2 same_pairs l1 l2 → same_pairs (VList l1) (VList l2)
| same_dict l1 l1' l2 :
    l1 ≡ₚ l1' →
    Forall2 (λ a b : string * value, a.1 = b.1 ∧ same_pairs a.2 b.2) l1' l2 →
    same_pairs (VDict l1) (VDict l2).

End Json.

(** ** Library functions

    [hashlib.md5] and the built-in [str] are not code of the repository; they
    are modelled so that the key derivation runs on concrete inputs.  No
    property below depends on what the digest is. *)

Module Hashlib.

Local Open Scope Z_scope.

(** [data.encode()]: UTF-8, for code points below 256. *)
Fixpoint encode (data : string) : list Z :=
  match data with
  | EmptyString => []
  | String c rest =>
      let n := Z.of_N (N_of_ascii c) in
      if n <? 128 then n :: encode rest
      else Z.lor 192 (Z.shiftr n 6) :: Z.lor 128 (Z.land n 63) :: encode rest
  end.

Definition add32 (a b : Z) : Z := (a + b) mod 2 ^ 32.
Definition not32 (a : Z) : Z := Z.lxor a 0xffffffff.
Definition rotl32 (x c : Z) : Z :=
  Z.lor (Z.shiftl x c mod 2 ^ 32) (Z.shiftr x (32 - c)).

(** The per-round shift amounts and the constants
    [floor(2^32 * abs(sin(i + 1)))] of RFC 1321. *)
Definition shifts : list Z :=
  [7; 12; 17; 22; 7; 12; 17; 22; 7; 12; 17; 22; 7; 12; 17; 22;
   5; 9; 14; 20; 5; 9; 14; 20; 5; 9; 14; 20; 5; 9; 14; 20;
   4; 11; 16; 23; 4; 11; 16; 23; 4; 11; 16; 23; 4; 11; 16; 23;
   6; 10; 15; 21; 6; 10; 15; 21; 6; 10; 15; 21; 6; 10; 15; 21].

Definition sines : list Z :=
  [0xd76aa478; 0xe8c7b756; 0x242070db; 0xc1bdceee;
   0xf57c0faf; 0x4787c62a; 0xa8304613; 0xfd469501;
   0x698098d8; 0x8b44f7af; 0xffff5bb1; 0x895cd7be;
   0x6b901122; 0xfd987193; 0xa679438e; 0x49b40821;
   0xf61e2562; 0xc040b340; 0x265e5a51; 0xe9b6c7aa;
   0xd62f105d; 0x02441453; 0xd8a1e681; 0xe7d3fbc8;
   0x21e1cde6; 0xc33707d6; 0xf4d50d87; 0x455a14ed;
   0xa9e3e905; 0xfcefa3f8; 0x676f02d9; 0x8d2a4c8a;
   0xfffa3942; 0x8771f681; 0x6d9d6122; 0xfde5380c;
   0xa4beea44; 0x4bdecfa9; 0xf6bb4b60; 0xbebfbc70;
   0x289b7ec6; 0xeaa127fa; 0xd4ef3085; 0x04881d05;
   0xd9d4d039; 0xe6db99e5; 0x1fa27cf8; 0xc4ac5665;
   0xf4292244; 0x432aff97; 0xab9423a7; 0xfc93a039;
   0x655b59c3; 0x8f0ccc92; 0xffeff47d; 0x85845dd1;
   0x6fa87e4f; 0xfe2ce6e0; 0xa3014314; 0x4e0811a1;
   0xf7537e82; 0xbd3af235; 0x2ad7d2bb; 0xeb86d391].

Definition nth_word (l : list Z) (i : Z) : Z := nth (Z.to_nat i) l 0.

(** The four words of the digest state. *)
Definition words : Type := Z * Z * Z * Z.

(** One of the 64 operations on a block of 16 little-endian words. *)
Definition step (block : list Z) (st : words) (i : Z) : words :=
  let '(a, b, c, d) := st in
  let '(f, g) :=
    if i <? 16 then (Z.lor (Z.land b c) (Z.land (not32 b) d), i)
    else if i <? 32 then
      (Z.lor (Z.land d b) (Z.land (not32 d) c), (5 * i + 1) mod 16)
    else if i <? 48 then (Z.lxor (Z.lxor b c) d, (3 * i + 5) mod 16)
    else (Z.lxor c (Z.lor b (not32 d)), (7 * i) mod 16) in
  let f' := add32 (add32 (add32 f a) (nth_word sines i)) (nth_word block g) in
  (d, add32 b (rotl32 f' (nth_word shifts i)), b, c).

Definition compress (st : words) (block : list Z) : words :=
  let '(a0, b0, c0, d0) := st in
  let '(a, b, c, d) :=
    foldl (step block) st (Z.of_nat <$> seq 0 64) in
  (add32 a0 a, add32 b0 b, add32 c0 c, add32 d0 d).

(** Little-endian words of a list of bytes (four bytes a word). *)
Fixpoint le_words (bytes : list Z) : list Z :=
  match bytes with
  | b0 :: b1 :: b2 :: b3 :: rest =>
      (b0 + 256 * b1 + 65536 * b2 + 16777216 * b3) :: le_words rest
  | _ => []
  end.

(** The message followed by the bit 1, zeros up to 56 modulo 64 bytes, and
    the length in bits as 8 little-endian bytes. *)
Definition padded (msg : list Z) : list Z :=
  let len := Z.of_nat (length msg) in
  let zeros := Z.to_nat ((55 - len) mod 64) in
  let bits := (8 * len) mod 2 ^ 64 in
  msg ++ [128] ++ replicate zeros 0
      ++ ((λ i, Z.shiftr bits (8 * Z.of_nat i) mod 256) <$> seq 0 8).

(** The blocks of 16 words. *)
Fixpoint blocks (fuel : nat) (ws : list Z) : list (list Z) :=
  match fuel, ws with
  | S fuel', _ :: _ => take 16 ws :: blocks fuel' (drop 16 ws)
  | _, _ => []
  end.

Definition hex_char (n : Z) : ascii :=
  nth (Z.to_nat n)
      ["0"; "1"; "2"; "3"; "4"; "5"; "6"; "7";
       "8"; "9"; "a"; "b"; "c"; "d"; "e"; "f"]%char "0"%char.

Definition hex_byte (b : Z) : string :=
  String (hex_char (b / 16)) (String (hex_char (b mod 16)) EmptyString).

Definition hex_word (w : Z) : string :=
  hex_byte (w mod 256) +:+ hex_byte (Z.shiftr w 8 mod 256)
  +:+ hex_byte (Z.shiftr w 16 mod 256) +:+ hex_byte (Z.shiftr w 24 mod 256).

(** [hashlib.md5(bytes).hexdigest()] *)
Definition md5 (msg : list Z) : string :=
  let ws := le_words (padded msg) in
  let '(a, b, c, d) :=
    foldl compress (0x67452301, 0xefcdab89, 0x98badcfe, 0x10325476)
          (blocks (length ws) ws) in
  hex_word a +:+ hex_word b +:+ hex_word c +:+ hex_word d.

(** [hashlib.md5(data.encode()).hexdigest()] *)
Definition md5_hexdigest (data : string) : string := md5 (encode data).

End Hashlib.

Module Builtins.

Import Json.

Definition squote : ascii := "039"%char.

(** [c in s] *)
Fixpoint contains (c : ascii) (s : string) : bool :=
  match s with
  | EmptyString => false
  | String c' rest => Ascii.eqb c c' || contains c rest
  end.

(** One character of [repr] of a [str] quoted with [q]. *)
Definition repr_char (q c : ascii) : string :=
  let n := N_of_ascii c in
  if Ascii.eqb c q || Ascii.eqb c backslash
  then String backslash (String c EmptyString)
  else if (n =? 9)%N then String backslash "t"
  else if (n =? 10)%N then String backslash "n"
  else if (n =? 13)%N then String backslash "r"
  else if ((n <? 32) || (n =? 127) || ((128 <=? n) && (n <=? 160))
           || (n =? 173))%N
  then String backslash
         (String "x" (String (hex_digit (n / 16))
                        (String (hex_digit (n mod 16)) EmptyString)))
  else String c EmptyString.

Fixpoint repr_body (q : ascii) (s : string) : string :=
  match s with
  | EmptyString => EmptyString
  | String c rest => repr_char q c +:+ repr_body q rest
  end.

(** [repr(s)] for a [str]: single quotes, unless the string has a single
    quote and no double quote. *)
Definition repr_str (s : string) : string :=
  let q := if contains squote s && negb (contains dquote s)
           then dquote else squote in
  String q (repr_body q s +:+ String q EmptyString).

(** [repr(v)] *)
Fixpoint repr (v : value) : string :=
  match v with
  | VNone => "None"
  | VBool true => "True"
  | VBool false => "False"
  | VInt n => pretty n
  | VStr s => repr_str s
  | VList items => "[" +:+ join ", " (repr <$> items) +:+ "]"
  | VDict items =>
      "{" +:+
      join ", " ((λ kv : string * value,
                    repr_str kv.1 +:+ ": " +:+ repr kv.2) <$> items)
      +:+ "}"
  end.

(** [str(args)] for the tuple [args]. *)
Definition str_tuple (args : list value) : string :=
  match args with
  | [x] => "(" +:+ repr x +:+ ",)"
  | _ => "(" +:+ join ", " (repr <$> args) +:+ ")"
  end.

End Builtins.

(** [_generate_key(prefix, **kwargs)], the same method in both managers. *)
Definition _generate_key (prefix : string) (kwargs : list (string * value))
  : string :=
  let key_data := Json.dumps_sorted (VDict kwargs) in
  let key_hash := Hashlib.md5_hexdigest key_data in
  prefix +:+ ":" +:+ key_hash.

(** ** The Redis cache manager ([cache.py]) *)

Module Redis.

(** [CacheManager]: the fields [redis] (the client, or [None]) and
    [connected]. *)
Record CacheManager (Client : Type) : Type := Manager {
  redis : option Client;
  connected : bool
}.
Arguments Manager {Client} redis connected.
Arguments redis {Client} c.
Arguments connected {Client} c.

Section manager.

(** The [aioredis] client and the service behind it are libraries: a
    command is a function of the state of the service (and of the network),
    which returns a reply or raises. *)
Variable Client : Type.
Variable Service : Type.
Variable redis_get :
  Client → string → Service → outcome (option string) * Service.
Variable redis_setex :
  Client → string → Z → string → Service → outcome unit * Service.
Variable redis_delete :
  Client → list string → Service → outcome unit * Service.
Variable redis_keys :
  Client → string → Service → outcome (list string) * Service.

Variable redis_from_url : string → outcome Client.
Variable redis_ping : Client → Service → outcome unit * Service.
Variable redis_close : Client → Service → outcome unit * Service.

(** [json.loads(value)] and [json.dumps(value, default=str)]. *)
Variable json_loads : string → outcome value.
Variable json_dumps_default_str : value → outcome string.

Definition state : Type := CacheManager Client * Service.

(** [__init__] *)
Definition init : CacheManager Client :=
  {| redis := None; connected := false |}.

(** [connect]; [env_redis_url] is the environment variable [REDIS_URL], when
    it is set. *)
Definition connect (env_redis_url : option string) (st : state) : state :=
  let '(self, srv) := st in
  let redis_url := default "redis://localhost:6379" env_redis_url in
  match redis_from_url redis_url with
  | Returned r =>
      match redis_ping r srv with
      | (Returned _, srv') => ({| redis := Some r; connected := true |}, srv')
      | (Raised _, srv') => ({| redis := None; connected := false |}, srv')
      end
  | Raised _ => ({| redis := None; connected := false |}, srv)
  end.

(** [disconnect]: an exception of [close] is not caught. *)
Definition disconnect (st : state) : outcome unit * state :=
  let '(self, srv) := st in
  match redis self with
  | Some r =>
      match redis_close r srv with
      | (Returned _, srv') =>
          (Returned (), ({| redis := redis self; connected := false |}, srv'))
      | (Raised e, srv') => (Raised e, (self, srv'))
      end
  | None => (Returned (), st)
  end.

(** [get] *)
Definition get (key : string) (st : state) : value * state :=
  let '(self, srv) := st in
  match connected self, redis self with
  | true, Some r =>
      match redis_get r key srv with
      | (Returned (Some (String c rest as value)), srv') =>
          match json_loads value with
          | Returned v => (v, (self, srv'))
          | Raised _ => (VNone, (self, srv'))
          end
      | (Returned _, srv') => (VNone, (self, srv'))
      | (Raised _, srv') => (VNone, (self, srv'))
      end
  | _, _ => (VNone, st)
  end.

(** [set] *)
Definition set (key : string) (val : value) (expire : Z) (st : state)
  : bool * state :=
  let '(self, srv) := st in
  match connected self, redis self with
  | true, Some r =>
      match json_dumps_default_str val with
      | Returned json_value =>
          match redis_setex r key expire json_value srv with
          | (Returned _, srv') => (true, (self, srv'))
          | (Raised _, srv') => (false, (self, srv'))
          end
      | Raised _ => (false, st)
      end
  | _, _ => (false, st)
  end.

(** [delete] *)
Definition delete (key : string) (st : state) : bool * state :=
  let '(self, srv) := st in
  match connected self, redis self with
  | true, Some r =>
      match redis_delete r [key] srv with
      | (Returned _, srv') => (true, (self, srv'))
      | (Raised _, srv') => (false, (self, srv'))
      end
  | _, _ => (false, st)
  end.

(** [clear_pattern] *)
Definition clear_pattern (pattern : string) (st : state) : bool * state :=
  let '(self, srv) := st in
  match connected self, redis self with
  | true, Some r =>
      match redis_keys r pattern srv with
      | (Returned [], srv') => (true, (self, srv'))
      | (Returned (k :: ks), srv') =>
          match redis_delete r (k :: ks) srv' with
          | (Returned _, srv'') => (true, (self, srv''))
          | (Raised _, srv'') => (false, (self, srv''))
          end
      | (Raised _, srv') => (false, (self, srv'))
      end
  | _, _ => (false, st)
  end.

End manager.

End Redis.

(** ** The decorator [cache_response] (the same in both modules) *)

(** What the decorator uses of the module's [cache_manager]: [get] and
    [set].  The clock reading is the one of the call (the Redis manager
    leaves expiry to the service and does not read it). *)
Class CacheBackend (M : Type) : Type := {
  backend_get : float → string → M → value * M;
  backend_set : float → string → value → Z → M → bool * M
}.

#[global] Instance simple_backend : CacheBackend Simple.SimpleCacheManager := {
  backend_get := Simple.get;
  backend_set := Simple.set
}.

Definition redis_backend {Client Service : Type}
    (redis_get : Client → string → Service → outcome (option string) * Service)
    (redis_setex :
       Client → string → Z → string → Service → outcome unit * Service)
    (json_loads : string → outcome value)
    (json_dumps_default_str : value → outcome string)
  : CacheBackend (Redis.state Client Service) := {|
  backend_get := λ _ key st,
    Redis.get Client Service redis_get json_loads key st;
  backend_set := λ _ key val expire st,
    Redis.set Client Service redis_setex json_dumps_default_str
      key val expire st
|}.

Section cache_response.

Context {M : Type} {backend : CacheBackend M}.

(** The wrapped coroutine [func].  It runs between the [get] and the [set]
    of the wrapper, in a world [W] that it may change; the module's
    [cache_manager] is a global that it can reach as well (it may itself be
    a decorated function, or call an invalidation), so it takes the manager
    as the wrapper's [get] left it and hands it on to the wrapper's [set].
    It returns or raises. *)
Context {W : Type}.
Definition operation : Type :=
  list value → list (string * value) → M * W → outcome value * (M * W).

(** The coroutine [wrapper] that [cache_response(prefix, expire)(func)]
    returns, called with the positional arguments [args] and the keyword
    arguments [kwargs]:
    [t_get] and [t_set] are the clock readings of the calls of [get] and
    [set]. *)
Definition cache_response (prefix : string) (expire : Z) (func : operation)
    (args : list value) (kwargs : list (string * value)) (t_get t_set : float)
    (st : M * W) : outcome value * (M * W) :=
  let cache_key :=
    _generate_key prefix
      [("args", VStr (Builtins.str_tuple args)); ("kwargs", VDict kwargs)] in
  let '(cached_result, m1) := backend_get t_get cache_key st.1 in
  if negb (is_none cached_result) then (Returned cached_result, (m1, st.2))
  else
    match func args kwargs (m1, st.2) with
    | (Returned result, (m2, w1)) =>
        let '(_, m3) := backend_set t_set cache_key result expire m2 in
        (Returned result, (m3, w1))
    | (Raised e, st1) => (Raised e, st1)
    end.

(** The [cache_key] of a call of the wrapper. *)
Definition wrapper_key (prefix : string) (args : list value)
    (kwargs : list (string * value)) : string :=
  _generate_key prefix
    [("args", VStr (Builtins.str_tuple args)); ("kwargs", VDict kwargs)].

End cache_response.

(** A coroutine that does not use the cache manager: a function of its
    arguments and of its own world. *)
Definition standalone (W : Type) : Type :=
  list value → list (string * value) → W → outcome value * W.

(** A [standalone] coroutine as a wrapped coroutine: the manager passes
    through it untouched. *)
Definition independent {M W : Type} (func : standalone W) : @operation M W :=
  λ args kwargs st,
    let '(r, w') := func args kwargs st.2 in (r, (st.1, w')).

(** A wrapped coroutine with a count of its executions: the first component
    of the world is one more after every run of [func]. *)
Definition counted {M W : Type} (func : @operation M W)
  : @operation M (nat * W) :=
  λ args kwargs st,
    let '(r, (m', w')) := func args kwargs (st.1, st.2.2) in
    (r, (m', (S st.2.1, w'))).

(** Successive calls of a wrapper, one for every pair of clock readings of
    [clock]: the results in order and the final state. *)
Fixpoint repeat_calls {S : Type}
    (call : float → float → S → outcome value * S)
    (clock : list (float * float)) (st : S)
  : list (outcome value) * S :=
  match clock with
  | [] => ([], st)
  | (t_get, t_set) :: rest =>
      let '(r, st1) := call t_get t_set st in
      let '(rs, st2) := repeat_calls call rest st1 in
      (r :: rs, st2)
  end.

(** The counting operation: it increments a counter and returns it. *)
Definition counting_op : standalone Z :=
  λ _ _ n, (Returned (VInt (n + 1)), (n + 1)%Z).

(** An operation that returns [None] and changes nothing. *)
Definition returns_none : standalone unit :=
  λ _ _ w, (Returned VNone, w).

(** An operation that raises and changes nothing. *)
Definition raises_error : standalone unit :=
  λ _ _ w, (Raised "unavailable", w).

(** A decorated function that awaits another decorated function: the
    wrapper of the namespace [inner] around [func], as a coroutine for an
    outer wrapper.  [t_get] and [t_set] are the clock readings of the inner
    wrapper's [get] and [set]. *)
Definition nested {W : Type} (inner : string) (expire : Z)
    (func : @operation Simple.SimpleCacheManager W) (t_get t_set : float)
  : @operation Simple.SimpleCacheManager W :=
  λ args kwargs st,
    cache_response inner expire func args kwargs t_get t_set st.

(** ** The callers in [server.py] *)

Module Server.

(** What [test_cache] returns: the dictionary with the entries
    ["cache_test"] and ["cache_stats"], or the one with ["error"]. *)
Inductive test_cache_reply : Type :=
| CacheTest (cache_test : value) (cache_stats : Simple.cache_stats)
| CacheError (error : string).

(** [test_cache]: [cache_manager] is [None] when the import of the cache
    module failed; [t_set], [t_get] and [t_stats] are the clock readings of
    the three calls. *)
Definition test_cache (OPTIMIZATIONS_AVAILABLE : bool)
    (t_set t_get t_stats : float)
    (cache_manager : option Simple.SimpleCacheManager)
  : test_cache_reply * option Simple.SimpleCacheManager :=
  match OPTIMIZATIONS_AVAILABLE, cache_manager with
  | true, Some m =>
      let '(_, m1) :=
        Simple.set t_set "test_key" (VDict [("test", VStr "data")]) 60 m in
      let '(result, m2) := Simple.get t_get "test_key" m1 in
      let '(stats, m3) := Simple.get_cache_stats t_stats m2 in
      (CacheTest result stats, Some m3)
  | _, _ => (CacheError "Cache not available", cache_manager)
  end.

End Server.

(** * Properties *)

Lemma is_none_true v : is_none v = true ↔ v = VNone.
Proof. destruct v; simpl; split; congruence. Qed.

Lemma is_none_false v : is_none v = false ↔ v ≠ VNone.
Proof. destruct v; simpl; split; congruence. Qed.

(** ** The order of floats *)

(** The comparison of two floats looks at the signs, then at the exponents,
    then at the mantissas. *)
Ltac float_order :=
  unfold Float.gtb, Float.leb, SFltb, SFleb, SFcompare;
  repeat match goal with
         | |- context [Z.compare ?a ?b] => destruct (Z.compare_spec a b)
         | |- context [Pos.compare_cont Eq ?a ?b] =>
             change (Pos.compare_cont Eq a b) with (Pos.compare a b);
             destruct (Pos.compare_spec a b)
         end;
  cbn; try congruence; try lia.

(** A later clock reading is after everything an earlier one is after. *)
Lemma gtb_mono (t1 t2 x : float) :
  Float.leb t1 t2 = true → Float.gtb t1 x = true → Float.gtb t2 x = true.
Proof.
  destruct x as [sx|sx| |sx mx ex], t1 as [s1|s1| |s1 m1 e1],
           t2 as [s2|s2| |s2 m2 e2];
    try destruct sx; try destruct s1; try destruct s2;
    try (cbn; congruence); float_order.
Qed.

Lemma gtb_irrefl (x : float) : Float.gtb x x = false.
Proof.
  destruct x as [s|s| |s m e]; try destruct s; try reflexivity; float_order.
Qed.

(** [x + 0] compares as [x] does: the sum is [x], but for the sign of a
    zero. *)
Lemma add_int_zero (x : float) :
  Float.add_int x 0 = Returned (Float.add x (S754_zero false)).
Proof. reflexivity. Qed.

Lemma gtb_add_zero (now x : float) :
  Float.gtb now (Float.add x (S754_zero false)) = Float.gtb now x.
Proof.
  destruct x as [s|s| |s m e]; try destruct s; try reflexivity.
Qed.

Lemma add_zero_gtb (x y : float) :
  Float.gtb (Float.add x (S754_zero false)) y = Float.gtb x y.
Proof.
  destruct x as [s|s| |s m e]; try destruct s; try reflexivity;
    destruct y as [s|s| |s m e]; try destruct s; reflexivity.
Qed.

(** The sum with an [int] that has a float. *)
Lemma add_int_rounded (x : float) (n : Z) :
  Float.of_int n = Returned (Float.rounded n) →
  Float.add_int x n = Returned (Float.add x (Float.rounded n)).
Proof. intros Hn. unfold Float.add_int. rewrite Hn. reflexivity. Qed.

(** The sum raises exactly when the conversion of the [int] does, whatever
    the clock. *)
Lemma add_int_raises (x y : float) (n : Z) (err : string) :
  Float.add_int x n = Raised err → Float.add_int y n = Raised err.
Proof.
  unfold Float.add_int. destruct (Float.of_int n); [discriminate|].
  intros H. exact H.
Qed.

(** ** The rounding of float sums

    What rounding does to the sum of a clock reading and a ttl, from the
    definitions of the binary64 operations. *)

Section rounding.
Local Open Scope Z_scope.

Lemma fexp64_eq d : fexp64 d = Z.max (d - 53) (-1074).
Proof. reflexivity. Qed.

Lemma fexp64_mono a b : a <= b -> fexp64 a <= fexp64 b.
Proof. rewrite !fexp64_eq. lia. Qed.

Lemma digits2_pos_bounds (p : positive) :
  2 ^ (Zpos (digits2_pos p) - 1) <= Zpos p < 2 ^ Zpos (digits2_pos p).
Proof.
  induction p as [p IH | p IH |]; cbn [digits2_pos].
  - rewrite Pos2Z.inj_succ.
    replace (Z.succ (Zpos (digits2_pos p)) - 1)
      with (Z.succ (Zpos (digits2_pos p) - 1)) by lia.
    rewrite !Z.pow_succ_r by lia. lia.
  - rewrite Pos2Z.inj_succ.
    replace (Z.succ (Zpos (digits2_pos p)) - 1)
      with (Z.succ (Zpos (digits2_pos p) - 1)) by lia.
    rewrite !Z.pow_succ_r by lia. lia.
  - cbn. lia.
Qed.

Lemma Zdigits2_nonneg m : 0 <= Zdigits2 m.
Proof. destruct m; cbn; lia. Qed.

Lemma Zdigits2_bounds m :
  0 < m -> 2 ^ (Zdigits2 m - 1) <= m < 2 ^ Zdigits2 m.
Proof. destruct m as [|p|p]; try lia. intros _. apply digits2_pos_bounds. Qed.

Lemma Zdigits2_le_pow m k : 0 <= k -> 0 <= m < 2 ^ k -> Zdigits2 m <= k.
Proof.
  intros Hk [H0 Hm]. destruct (Z.eq_dec m 0) as [->|Hne]; [cbn; lia|].
  destruct (Zdigits2_bounds m) as [Hlo _]; [lia|].
  destruct (Z_lt_le_dec k (Zdigits2 m)) as [Hlt|]; [|lia]. exfalso.
  assert (2 ^ k <= 2 ^ (Zdigits2 m - 1)) by (apply Z.pow_le_mono_r; lia).
  lia.
Qed.

Lemma Zdigits2_ge_pow m k : 0 <= k -> 2 ^ k <= m -> k + 1 <= Zdigits2 m.
Proof.
  intros Hk Hm. assert (0 < 2 ^ k) by (apply Z.pow_pos_nonneg; lia).
  destruct (Zdigits2_bounds m) as [_ Hhi]; [lia|].
  destruct (Z_lt_le_dec k (Zdigits2 m)) as [|Hle]; [lia|]. exfalso.
  assert (2 ^ Zdigits2 m <= 2 ^ k)
    by (apply Z.pow_le_mono_r; [lia | exact Hle]).
  lia.
Qed.

Lemma Zdigits2_mono a b : 0 <= a <= b -> Zdigits2 a <= Zdigits2 b.
Proof.
  intros [Ha Hab]. destruct (Z.eq_dec a 0) as [->|Hne].
  - apply Zdigits2_nonneg.
  - destruct (Zdigits2_bounds a) as [Hlo _]; [lia|].
    assert (0 < Zdigits2 a).
    { destruct a; cbn in *; lia. }
    pose proof (Zdigits2_ge_pow b (Zdigits2 a - 1)). lia.
Qed.

Lemma Zdigits2_shift m k :
  0 < m -> 0 <= k -> Zdigits2 (m * 2 ^ k) = Zdigits2 m + k.
Proof.
  intros Hm Hk. destruct (Zdigits2_bounds m Hm) as [Hlo Hhi].
  assert (0 < Zdigits2 m) by (destruct m; cbn in *; lia).
  assert (0 < 2 ^ k) by (apply Z.pow_pos_nonneg; lia).
  apply Z.le_antisymm.
  - apply Zdigits2_le_pow; [lia|]. rewrite Z.pow_add_r by lia. nia.
  - pose proof (Zdigits2_ge_pow (m * 2 ^ k) (Zdigits2 m - 1 + k)) as H2.
    rewrite Z.pow_add_r in H2 by lia.
    assert (2 ^ (Zdigits2 m - 1) * 2 ^ k <= m * 2 ^ k) by nia. lia.
Qed.

(** Shifting right *)

Lemma shr_1_m mrs : 0 <= shr_m mrs -> shr_m (shr_1 mrs) = shr_m mrs / 2.
Proof.
  destruct mrs as [m r s]. cbn [shr_m]. intros Hm.
  destruct m as [|[p|p|]|p]; cbn [shr_1 shr_m]; try lia.
  - reflexivity.
  - apply (Z.div_unique_pos _ 2 _ 1); lia.
  - apply (Z.div_unique_pos _ 2 _ 0); lia.
  - reflexivity.
Qed.

Lemma pow_xO p : 2 ^ Zpos p~0 = 2 ^ Zpos p * 2 ^ Zpos p.
Proof. rewrite <- Z.pow_add_r by lia. f_equal. lia. Qed.

Lemma pow_xI p : 2 ^ Zpos p~1 = 2 * (2 ^ Zpos p * 2 ^ Zpos p).
Proof.
  rewrite <- Z.pow_add_r by lia. rewrite <- Z.pow_succ_r by lia.
  f_equal. lia.
Qed.

Lemma iter_shr_m p : forall mrs,
  0 <= shr_m mrs ->
  shr_m (SpecFloat.iter_pos shr_1 p mrs) = shr_m mrs / 2 ^ Zpos p.
Proof.
  induction p as [p IH | p IH |]; intros mrs Hm; cbn [SpecFloat.iter_pos].
  - assert (0 <= shr_m (shr_1 mrs)) as H1
      by (rewrite shr_1_m by exact Hm; apply Z.div_pos; lia).
    assert (0 <= shr_m (SpecFloat.iter_pos shr_1 p (shr_1 mrs))) as H2.
    { rewrite IH by exact H1. apply Z.div_pos; [exact H1|].
      apply Z.pow_pos_nonneg; lia. }
    rewrite IH by exact H2. rewrite IH by exact H1.
    rewrite shr_1_m by exact Hm.
    rewrite pow_xI.
    assert (0 < 2 ^ Zpos p) by (apply Z.pow_pos_nonneg; lia).
    rewrite !Z.div_div by lia. reflexivity.
  - assert (0 <= shr_m (SpecFloat.iter_pos shr_1 p mrs)) as H2.
    { rewrite IH by exact Hm. apply Z.div_pos; [exact Hm|].
      apply Z.pow_pos_nonneg; lia. }
    rewrite IH by exact H2. rewrite IH by exact Hm.
    rewrite pow_xO.
    assert (0 < 2 ^ Zpos p) by (apply Z.pow_pos_nonneg; lia).
    rewrite !Z.div_div by lia. reflexivity.
  - rewrite shr_1_m by exact Hm. reflexivity.
Qed.

Lemma shr_spec mrs e n :
  0 <= shr_m mrs ->
  shr_m (fst (shr mrs e n)) = shr_m mrs / 2 ^ Z.max 0 n
  /\ snd (shr mrs e n) = e + Z.max 0 n
  /\ (n <= 0 -> fst (shr mrs e n) = mrs).
Proof.
  intros Hm. unfold shr. destruct n as [|p|p]; cbn [fst snd].
  - change (Z.max 0 0) with 0. rewrite Z.div_1_r. repeat split; lia.
  - rewrite iter_shr_m by exact Hm.
    replace (Z.max 0 (Zpos p)) with (Zpos p) by lia. repeat split; lia.
  - replace (Z.max 0 (Zneg p)) with 0 by lia. rewrite Z.div_1_r.
    repeat split; lia.
Qed.

Lemma round_nearest_even_bounds q l :
  q <= round_nearest_even q l <= q + 1.
Proof.
  unfold round_nearest_even. destruct l as [|[| |]]; try lia.
  destruct (Z.even q); lia.
Qed.

Lemma binary_round_aux_cases s (M e : Z) :
  0 < M ->
  let k1 := Z.max 0 (fexp64 (Zdigits2 M + e) - e) in
  exists m2,
    M / 2 ^ k1 <= m2 <= M / 2 ^ k1 + 1
    /\ (fexp64 (Zdigits2 M + e) - e <= 0 -> m2 = M)
    /\ binary_round_aux 53 1024 s M e loc_Exact = rounded_float s m2 (e + k1).
Proof.
  intros HM. cbn zeta. unfold binary_round_aux, shr_fexp.
  change (fexp 53 1024) with fexp64 in *.
  pose proof (shr_spec (shr_record_of_loc M loc_Exact) e
                (fexp64 (Zdigits2 M + e) - e)) as H1.
  cbn [shr_record_of_loc shr_m] in H1. specialize (H1 ltac:(lia)).
  destruct (shr _ e (fexp64 (Zdigits2 M + e) - e)) as [mrs' e'].
  cbn [fst snd] in H1. destruct H1 as (Hm' & -> & Hexact).
  set (m2 := round_nearest_even (shr_m mrs') (loc_of_shr_record mrs')).
  exists m2. split; [|split].
  - rewrite <- Hm'. apply round_nearest_even_bounds.
  - intros Hle. unfold m2. rewrite (Hexact Hle). reflexivity.
  - assert (0 <= m2) as Hm2.
    { pose proof (round_nearest_even_bounds (shr_m mrs')
                    (loc_of_shr_record mrs')).
      assert (0 <= shr_m mrs').
      { rewrite Hm'. apply Z.div_pos; [lia|]. apply Z.pow_pos_nonneg; lia. }
      unfold m2. lia. }
    pose proof (shr_spec (shr_record_of_loc m2 loc_Exact)
                  (e + Z.max 0 (fexp64 (Zdigits2 M + e) - e))
                  (fexp64 (Zdigits2 m2 + (e + Z.max 0 (fexp64 (Zdigits2 M + e) - e)))
                   - (e + Z.max 0 (fexp64 (Zdigits2 M + e) - e)))) as H2.
    cbn [shr_record_of_loc shr_m] in H2. specialize (H2 Hm2).
    destruct (shr _ _ _) as [mrs'' e''].
    cbn [fst snd] in H2. destruct H2 as (Hm'' & -> & _).
    unfold rounded_float, Float.prec, Float.emax. cbn zeta. rewrite Hm''. reflexivity.
Qed.

Lemma pos_iter_xO (m d : positive) :
  Zpos (Pos.iter xO m d) = Zpos m * 2 ^ Zpos d.
Proof.
  induction d as [|d IH] using Pos.peano_ind.
  - cbn. lia.
  - rewrite Pos.iter_succ, Pos2Z.inj_xO, IH, Pos2Z.inj_succ.
    rewrite Z.pow_succ_r by lia. lia.
Qed.

Lemma shl_align_spec (m : positive) e e' :
  Zpos (fst (shl_align m e e')) = Zpos m * 2 ^ Z.max 0 (e - e')
  /\ snd (shl_align m e e') = Z.min e e'.
Proof.
  unfold shl_align. destruct (e' - e) as [|d|d] eqn:Hd; cbn [fst snd].
  - replace (Z.max 0 (e - e')) with 0 by lia. cbn. lia.
  - replace (Z.max 0 (e - e')) with 0 by lia. cbn. lia.
  - rewrite pos_iter_xO. replace (Z.max 0 (e - e')) with (Zpos d) by lia.
    lia.
Qed.

Lemma binary_round_cases s (m : positive) e :
  let e0 := fexp64 (Zpos (digits2_pos m) + e) in
  exists m2,
    (e0 <= e -> m2 = Zpos m * 2 ^ (e - e0))
    /\ (e < e0 ->
        Zpos m / 2 ^ (e0 - e) <= m2 <= Zpos m / 2 ^ (e0 - e) + 1)
    /\ binary_round 53 1024 s m e = rounded_float s m2 e0.
Proof.
  cbn zeta. unfold binary_round. change (fexp 53 1024) with fexp64 in *.
  set (e0 := fexp64 (Zpos (digits2_pos m) + e)).
  destruct (shl_align_spec m e e0) as [Hm He].
  destruct (shl_align m e e0) as [mz ez]. cbn [fst snd] in Hm, He.
  destruct (binary_round_aux_cases s (Zpos mz) ez ltac:(lia))
    as (m2 & Hb & Hexact & Heq).
  assert (Zdigits2 (Zpos mz) + ez = Zpos (digits2_pos m) + e) as Hd.
  { rewrite Hm, Zdigits2_shift by lia. cbn [Zdigits2]. lia. }
  rewrite Hd in Hb, Hexact, Heq. fold e0 in Hb, Hexact, Heq.
  exists m2. split; [|split].
  - intros Hle. rewrite Hexact by lia. rewrite Hm. f_equal. f_equal. lia.
  - intros Hlt. replace (Z.max 0 (e0 - ez)) with (e0 - e) in Hb by lia.
    replace (Z.max 0 (e - e0)) with 0 in Hm by lia.
    rewrite Z.pow_0_r, Z.mul_1_r in Hm. rewrite Hm in Hb. exact Hb.
  - rewrite Heq. f_equal. lia.
Qed.

Lemma rounded_float_sign s m2 e0 :
  0 <= m2 ->
  rounded_float s m2 e0 = S754_zero s
  \/ rounded_float s m2 e0 = S754_infinity s
  \/ exists m3 e3, rounded_float s m2 e0 = S754_finite s m3 e3.
Proof.
  intros Hm. unfold rounded_float, Float.prec, Float.emax. cbn zeta.
  set (k2 := Z.max 0 (fexp64 (Zdigits2 m2 + e0) - e0)).
  assert (0 <= m2 / 2 ^ k2)
    by (apply Z.div_pos; [lia | apply Z.pow_pos_nonneg; lia]).
  destruct (m2 / 2 ^ k2) as [|m3|m3]; [left; reflexivity | | lia].
  right. destruct (e0 + k2 <=? 1024 - 53); [right; eauto | left; reflexivity].
Qed.

Lemma rounded_float_positive s m2 e0 :
  -1074 <= e0 -> 0 < m2 ->
  rounded_float s m2 e0 = S754_infinity s
  \/ exists (m3 : positive) (k2 : Z),
       0 <= k2
       /\ rounded_float s m2 e0 = S754_finite s m3 (e0 + k2)
       /\ Zpos m3 = m2 / 2 ^ k2.
Proof.
  intros He Hm. unfold rounded_float, Float.prec, Float.emax. cbn zeta.
  set (k2 := Z.max 0 (fexp64 (Zdigits2 m2 + e0) - e0)).
  destruct (Zdigits2_bounds m2 Hm) as [Hlo _].
  assert (0 < Zdigits2 m2) as Hd by (destruct m2; cbn in *; lia).
  assert (0 <= k2 <= Zdigits2 m2 - 1) as Hk
    by (unfold k2; rewrite fexp64_eq; lia).
  assert (1 <= m2 / 2 ^ k2) as Hq.
  { apply Z.div_le_lower_bound; [apply Z.pow_pos_nonneg; lia|].
    rewrite Z.mul_1_r.
    assert (2 ^ k2 <= 2 ^ (Zdigits2 m2 - 1))
      by (apply Z.pow_le_mono_r; lia).
    lia. }
  destruct (m2 / 2 ^ k2) as [|m3|m3] eqn:Hm3; [lia| |lia].
  destruct (e0 + k2 <=? 1024 - 53); [|left; reflexivity].
  right. exists m3, k2. split; [lia|]. split; [reflexivity|].
  symmetry. exact Hm3.
Qed.

Lemma rounded_float_below s m2 e0 (mx : positive) ex :
  fexp64 (Zpos (digits2_pos mx) + ex) = ex ->
  ex <= 1024 - 53 ->
  e0 <= ex ->
  0 <= m2 < Zpos mx * 2 ^ (ex - e0) ->
  rounded_float s m2 e0 = S754_zero s
  \/ exists m3 e3,
       rounded_float s m2 e0 = S754_finite s m3 e3
       /\ (e3 < ex \/ (e3 = ex /\ Zpos m3 < Zpos mx)).
Proof.
  intros Hcan Hex He Hm. unfold rounded_float, Float.prec, Float.emax. cbn zeta.
  set (k2 := Z.max 0 (fexp64 (Zdigits2 m2 + e0) - e0)).
  assert (k2 <= ex - e0) as Hk.
  { assert (Zdigits2 m2 <= Zdigits2 (Zpos mx * 2 ^ (ex - e0)))
      by (apply Zdigits2_mono; lia).
    rewrite Zdigits2_shift in H by lia. cbn [Zdigits2] in H.
    assert (fexp64 (Zdigits2 m2 + e0) <= fexp64 (Zpos (digits2_pos mx) + ex))
      by (apply fexp64_mono; lia).
    unfold k2. lia. }
  assert (0 <= k2) by (unfold k2; lia).
  assert (0 <= m2 / 2 ^ k2)
    by (apply Z.div_pos; [lia | apply Z.pow_pos_nonneg; lia]).
  destruct (m2 / 2 ^ k2) as [|m3|m3] eqn:Hm3; [left; reflexivity | | lia].
  right. replace (e0 + k2 <=? 1024 - 53) with true
    by (symmetry; apply Z.leb_le; lia).
  exists m3, (e0 + k2). split; [reflexivity|].
  destruct (Z.eq_dec k2 (ex - e0)) as [Heq|Hne]; [right | left; lia].
  split; [lia|]. rewrite <- Hm3, Heq.
  apply Z.div_lt_upper_bound; [apply Z.pow_pos_nonneg; lia | lia].
Qed.

Lemma fexp64_ge d : -1074 <= fexp64 d.
Proof. rewrite fexp64_eq. lia. Qed.

(** When the magnitude grows by at least two units of the last place of
    [x], the rounded result is beyond [x]. *)
Lemma binary_round_grow s (p : positive) ez (mx : positive) ex :
  fexp64 (Zpos (digits2_pos mx) + ex) = ex ->
  ez <= ex ->
  Zpos mx * 2 ^ (ex - ez) + 2 * 2 ^ (ex - ez) <= Zpos p ->
  binary_round 53 1024 s p ez = S754_infinity s
  \/ exists m3 e3,
       binary_round 53 1024 s p ez = S754_finite s m3 e3
       /\ (ex < e3 \/ (ex = e3 /\ Zpos mx < Zpos m3)).
Proof.
  intros Hcan Hez Hval.
  destruct (binary_round_cases s p ez) as (m2 & Hexact & Hshr & ->).
  set (e0 := fexp64 (Zpos (digits2_pos p) + ez)) in *.
  assert (0 < 2 ^ (ex - ez)) as HU by (apply Z.pow_pos_nonneg; lia).
  assert (ex <= e0) as He0.
  { rewrite <- Hcan. apply fexp64_mono.
    assert (Zdigits2 (Zpos mx * 2 ^ (ex - ez)) <= Zdigits2 (Zpos p))
      by (apply Zdigits2_mono; nia).
    rewrite Zdigits2_shift in H by lia. cbn [Zdigits2] in H. lia. }
  assert (-1074 <= ex) by (rewrite <- Hcan; apply fexp64_ge).
  assert (0 < m2 /\ (e0 = ex -> Zpos mx < m2)) as [Hpos Hgt].
  { destruct (Z_le_gt_dec e0 ez) as [Hle|Hgt].
    - rewrite (Hexact Hle).
      assert (0 < 2 ^ (ez - e0)) by (apply Z.pow_pos_nonneg; lia).
      split; [nia|]. intros Heq.
      replace (ez - e0) with 0 by lia. replace (ex - ez) with 0 in Hval by lia.
      rewrite Z.pow_0_r in *. lia.
    - specialize (Hshr ltac:(lia)).
      assert (0 < 2 ^ (e0 - ez)) by (apply Z.pow_pos_nonneg; lia).
      destruct (Z.eq_dec e0 ex) as [Heq|Hne].
      + assert (Zpos mx + 2 <= Zpos p / 2 ^ (e0 - ez)).
        { apply Z.div_le_lower_bound; [lia|]. rewrite Heq. lia. }
        split; [lia|]. intros _. lia.
      + split; [|intros; lia].
        assert (e0 = Zpos (digits2_pos p) + ez - 53) as He0'
          by (unfold e0 in *; rewrite fexp64_eq in *; lia).
        assert (2 ^ 52 <= Zpos p / 2 ^ (e0 - ez)).
        { apply Z.div_le_lower_bound; [lia|].
          rewrite <- Z.pow_add_r by lia.
          replace (e0 - ez + 52) with (Zpos (digits2_pos p) - 1) by lia.
          apply digits2_pos_bounds. }
        assert (0 < 2 ^ 52) by (apply Z.pow_pos_nonneg; lia). lia. }
  destruct (rounded_float_positive s m2 e0 ltac:(lia) Hpos)
    as [Hinf | (m3 & k2 & Hk2 & Heq & Hm3)]; [left; exact Hinf|].
  right. exists m3, (e0 + k2). split; [exact Heq|].
  destruct (Z.eq_dec (e0 + k2) ex) as [He|Hne]; [right | left; lia].
  split; [lia|]. replace k2 with 0 in Hm3 by lia.
  rewrite Z.pow_0_r, Z.div_1_r in Hm3. rewrite Hm3. apply Hgt. lia.
Qed.

(** When the magnitude shrinks by at least two units of the last place of
    [x], the rounded result is short of [x]. *)
Lemma binary_round_shrink s (p : positive) ez (mx : positive) ex :
  fexp64 (Zpos (digits2_pos mx) + ex) = ex ->
  ex <= 1024 - 53 ->
  ez <= ex ->
  Zpos p + 2 * 2 ^ (ex - ez) <= Zpos mx * 2 ^ (ex - ez) ->
  binary_round 53 1024 s p ez = S754_zero s
  \/ exists m3 e3,
       binary_round 53 1024 s p ez = S754_finite s m3 e3
       /\ (e3 < ex \/ (e3 = ex /\ Zpos m3 < Zpos mx)).
Proof.
  intros Hcan Hex Hez Hval.
  destruct (binary_round_cases s p ez) as (m2 & Hexact & Hshr & ->).
  set (e0 := fexp64 (Zpos (digits2_pos p) + ez)) in *.
  assert (0 < 2 ^ (ex - ez)) as HU by (apply Z.pow_pos_nonneg; lia).
  assert (e0 <= ex) as He0.
  { rewrite <- Hcan. apply fexp64_mono.
    assert (Zdigits2 (Zpos p) <= Zdigits2 (Zpos mx * 2 ^ (ex - ez)))
      by (apply Zdigits2_mono; lia).
    rewrite Zdigits2_shift in H by lia. cbn [Zdigits2] in H. lia. }
  apply rounded_float_below; [exact Hcan | exact Hex | exact He0 |].
  assert (0 < 2 ^ (ex - e0)) by (apply Z.pow_pos_nonneg; lia).
  destruct (Z_le_gt_dec e0 ez) as [Hle|Hgt].
  - rewrite (Hexact Hle).
    assert (0 < 2 ^ (ez - e0)) by (apply Z.pow_pos_nonneg; lia).
    replace (ex - e0) with ((ex - ez) + (ez - e0)) by lia.
    rewrite Z.pow_add_r by lia. nia.
  - specialize (Hshr ltac:(lia)).
    assert (0 < 2 ^ (e0 - ez)) by (apply Z.pow_pos_nonneg; lia).
    assert (2 ^ (ex - ez) = 2 ^ (ex - e0) * 2 ^ (e0 - ez)) as HUP
      by (rewrite <- Z.pow_add_r by lia; f_equal; lia).
    assert (0 <= Zpos p / 2 ^ (e0 - ez)) by (apply Z.div_pos; lia).
    assert (Zpos p / 2 ^ (e0 - ez) < Zpos mx * 2 ^ (ex - e0) - 1).
    { apply Z.div_lt_upper_bound; [lia|]. rewrite HUP in Hval. nia. }
    lia.
Qed.

Lemma at_least_one_units (my : positive) ey ex :
  at_least_one my ey -> ex <= -1 ->
  2 * 2 ^ (ex - Z.min ex ey) <= Zpos my * 2 ^ (ey - Z.min ex ey).
Proof.
  intros Hy Hex. destruct (Z_le_gt_dec ex ey) as [Hle|Hgt].
  - replace (Z.min ex ey) with ex by lia. replace (ex - ex) with 0 by lia.
    rewrite Z.pow_0_r.
    destruct (Z_le_gt_dec 0 ey) as [H0|H0].
    + assert (2 ^ 1 <= 2 ^ (ey - ex)) by (apply Z.pow_le_mono_r; lia).
      change (2 ^ 1) with 2 in *. nia.
    + destruct Hy as [|Hy]; [lia|].
      assert (2 ^ 1 <= 2 ^ (- ex)) by (apply Z.pow_le_mono_r; lia).
      change (2 ^ 1) with 2 in *.
      assert (2 ^ (- ex) = 2 ^ (- ey) * 2 ^ (ey - ex))
        by (rewrite <- Z.pow_add_r by lia; f_equal; lia).
      assert (0 < 2 ^ (ey - ex)) by (apply Z.pow_pos_nonneg; lia). nia.
  - replace (Z.min ex ey) with ey by lia. replace (ey - ey) with 0 by lia.
    rewrite Z.pow_0_r. destruct Hy as [|Hy]; [lia|].
    assert (2 ^ 1 <= 2 ^ (- ex)) by (apply Z.pow_le_mono_r; lia).
    change (2 ^ 1) with 2 in *.
    assert (2 ^ (- ey) = 2 ^ (- ex) * 2 ^ (ex - ey))
      by (rewrite <- Z.pow_add_r by lia; f_equal; lia).
    assert (0 < 2 ^ (ex - ey)) by (apply Z.pow_pos_nonneg; lia). nia.
Qed.

(** The float of an integer other than 0 has the sign of the integer and
    a value of at least 1, when it is finite. *)
Lemma binary_round_integer s (n : positive) :
  binary_round 53 1024 s n 0 = S754_infinity s
  \/ exists my ey,
       binary_round 53 1024 s n 0 = S754_finite s my ey
       /\ at_least_one my ey.
Proof.
  destruct (binary_round_cases s n 0) as (m2 & Hexact & Hshr & ->).
  set (e0 := fexp64 (Zpos (digits2_pos n) + 0)) in *.
  pose proof (digits2_pos_bounds n) as [Hlo Hhi].
  assert (e0 = Zpos (digits2_pos n) - 53) as He0
    by (unfold e0; rewrite fexp64_eq; lia).
  assert (0 < m2 /\ (e0 <= 0 -> 2 ^ (- e0) <= m2)) as [Hpos Hone].
  { destruct (Z_le_gt_dec e0 0) as [Hle|Hgt].
    - rewrite (Hexact Hle). replace (0 - e0) with (- e0) by lia.
      assert (0 < 2 ^ (- e0)) by (apply Z.pow_pos_nonneg; lia).
      split; [nia | intros _; nia].
    - specialize (Hshr ltac:(lia)). split; [|intros; lia].
      assert (0 < 2 ^ (e0 - 0)) by (apply Z.pow_pos_nonneg; lia).
      assert (2 ^ 52 <= Zpos n / 2 ^ (e0 - 0)).
      { apply Z.div_le_lower_bound; [lia|].
        rewrite <- Z.pow_add_r by lia.
        replace (e0 - 0 + 52) with (Zpos (digits2_pos n) - 1) by lia.
        exact Hlo. }
      assert (0 < 2 ^ 52) by (apply Z.pow_pos_nonneg; lia). lia. }
  destruct (rounded_float_positive s m2 e0 ltac:(lia) Hpos)
    as [Hinf | (m3 & k2 & Hk2 & Heq & Hm3)]; [left; exact Hinf|].
  right. exists m3, (e0 + k2). split; [exact Heq|].
  unfold at_least_one.
  destruct (Z_le_gt_dec 0 (e0 + k2)) as [|Hneg]; [left; lia|].
  right. rewrite Hm3. specialize (Hone ltac:(lia)).
  assert (0 < 2 ^ k2) by (apply Z.pow_pos_nonneg; lia).
  apply Z.div_le_lower_bound; [lia|].
  rewrite <- Z.pow_add_r by lia.
  replace (k2 + - (e0 + k2)) with (- e0) by lia. exact Hone.
Qed.

Lemma binary_round_sign s (p : positive) e :
  binary_round 53 1024 s p e = S754_zero s
  \/ binary_round 53 1024 s p e = S754_infinity s
  \/ exists m3 e3, binary_round 53 1024 s p e = S754_finite s m3 e3.
Proof.
  destruct (binary_round_cases s p e) as (m2 & Hexact & Hshr & ->).
  apply rounded_float_sign.
  set (e0 := fexp64 (Zpos (digits2_pos p) + e)) in *.
  destruct (Z_le_gt_dec e0 e) as [Hle|Hgt].
  - rewrite (Hexact Hle).
    assert (0 < 2 ^ (e - e0)) by (apply Z.pow_pos_nonneg; lia). nia.
  - specialize (Hshr ltac:(lia)).
    assert (0 <= Zpos p / 2 ^ (e0 - e))
      by (apply Z.div_pos; [lia | apply Z.pow_pos_nonneg; lia]).
    lia.
Qed.

Lemma small_finite s m e :
  Float.small (S754_finite s m e) = true ->
  fexp64 (Zpos (digits2_pos m) + e) = e /\ e <= 1024 - 53 /\ e <= -1.
Proof.
  unfold Float.small, Float.prec, Float.emax, bounded, canonical_mantissa.
  change (fexp 53 1024) with fexp64.
  rewrite !andb_true_iff, Z.eqb_eq, !Z.leb_le. intros [[H1 H2] H3]. auto.
Qed.

(** The sum of a small float and a float of magnitude at least 1 is on the
    side of the latter. *)
Lemma add_at_least_one (sx sy : bool) (mx my : positive) (ex ey : Z) :
  Float.small (S754_finite sx mx ex) = true ->
  at_least_one my ey ->
  let x := S754_finite sx mx ex in
  let sum := SFadd 53 1024 x (S754_finite sy my ey) in
  if sy then SFltb sum x = true else SFltb x sum = true.
Proof.
  intros Hsmall Hy. apply small_finite in Hsmall as (Hcan & Hmax & Hex).
  cbn zeta. unfold SFadd.
  set (ez := Z.min ex ey).
  destruct (shl_align_spec mx ex ez) as [HX _].
  destruct (shl_align_spec my ey ez) as [HY _].
  replace (Z.max 0 (ex - ez)) with (ex - ez) in HX by lia.
  replace (Z.max 0 (ey - ez)) with (ey - ez) in HY by lia.
  pose proof (at_least_one_units my ey ex Hy Hex) as Hunits.
  fold ez in Hunits. rewrite <- HY in Hunits.
  set (X := fst (shl_align mx ex ez)) in *.
  set (Y := fst (shl_align my ey ez)) in *.
  assert (0 < 2 ^ (ex - ez)) as HU by (apply Z.pow_pos_nonneg; lia).
  destruct sx, sy; cbn [cond_Zopp];
    try change (- Z.pos X) with (Z.neg X);
    try change (- Z.pos Y) with (Z.neg Y).
  - (* x < 0, y < 0 *)
    change (Z.neg X + Z.neg Y) with (Z.neg (X + Y)).
    cbn [binary_normalize].
    destruct (binary_round_grow true (X + Y) ez mx ex Hcan ltac:(lia))
      as [-> | (m3 & e3 & -> & Hlex)]; [rewrite Pos2Z.inj_add; lia | |].
    + reflexivity.
    + unfold SFltb, SFcompare.
      destruct Hlex as [Hlt | [<- Hlt]].
      * rewrite (proj2 (Z.compare_gt_iff e3 ex)) by lia. reflexivity.
      * rewrite Z.compare_refl.
        change (Pos.compare_cont Eq m3 mx) with (Pos.compare m3 mx).
        rewrite (proj2 (Pos.compare_gt_iff m3 mx)) by lia. reflexivity.
  - (* x < 0, y > 0 *)
    destruct (Z.neg X + Z.pos Y) as [|p|p] eqn:HM; cbn [binary_normalize].
    + reflexivity.
    + destruct (binary_round_sign false p ez)
        as [-> | [-> | (m3 & e3 & ->)]]; reflexivity.
    + destruct (binary_round_shrink true p ez mx ex Hcan Hmax ltac:(lia))
        as [-> | (m3 & e3 & -> & Hlex)]; [lia | reflexivity |].
      unfold SFltb, SFcompare.
      destruct Hlex as [Hlt | [-> Hlt]].
      * rewrite (proj2 (Z.compare_gt_iff ex e3)) by lia. reflexivity.
      * rewrite Z.compare_refl.
        change (Pos.compare_cont Eq mx m3) with (Pos.compare mx m3).
        rewrite (proj2 (Pos.compare_gt_iff mx m3)) by lia. reflexivity.
  - (* x > 0, y < 0 *)
    destruct (Z.pos X + Z.neg Y) as [|p|p] eqn:HM; cbn [binary_normalize].
    + reflexivity.
    + destruct (binary_round_shrink false p ez mx ex Hcan Hmax ltac:(lia))
        as [-> | (m3 & e3 & -> & Hlex)]; [lia | reflexivity |].
      unfold SFltb, SFcompare.
      destruct Hlex as [Hlt | [-> Hlt]].
      * rewrite (proj2 (Z.compare_lt_iff e3 ex)) by lia. reflexivity.
      * rewrite Z.compare_refl.
        change (Pos.compare_cont Eq m3 mx) with (Pos.compare m3 mx).
        rewrite (proj2 (Pos.compare_lt_iff m3 mx)) by lia. reflexivity.
    + destruct (binary_round_sign true p ez)
        as [-> | [-> | (m3 & e3 & ->)]]; reflexivity.
  - (* x > 0, y > 0 *)
    change (Z.pos X + Z.pos Y) with (Z.pos (X + Y)).
    cbn [binary_normalize].
    destruct (binary_round_grow false (X + Y) ez mx ex Hcan ltac:(lia))
      as [-> | (m3 & e3 & -> & Hlex)]; [rewrite Pos2Z.inj_add; lia | |].
    + reflexivity.
    + unfold SFltb, SFcompare.
      destruct Hlex as [Hlt | [<- Hlt]].
      * rewrite (proj2 (Z.compare_lt_iff ex e3)) by lia. reflexivity.
      * rewrite Z.compare_refl.
        change (Pos.compare_cont Eq mx m3) with (Pos.compare mx m3).
        rewrite (proj2 (Pos.compare_lt_iff mx m3)) by lia. reflexivity.
Qed.

(** The float of an integer other than 0, when it has one. *)
Lemma of_int_nonzero (n : Z) (y : float) :
  n <> 0 ->
  Float.of_int n = Returned y ->
  exists my ey,
    y = S754_finite (n <? 0) my ey /\ at_least_one my ey.
Proof.
  intros Hn. unfold Float.of_int, Float.rounded, Float.prec, Float.emax.
  destruct n as [|p|p]; [contradiction | |]; cbn [binary_normalize].
  - destruct (binary_round_integer false p)
      as [-> | (my & ey & -> & Hone)]; [discriminate|].
    intros [= <-]. exists my, ey. split; [reflexivity | exact Hone].
  - destruct (binary_round_integer true p)
      as [-> | (my & ey & -> & Hone)]; [discriminate|].
    intros [= <-]. exists my, ey. split; [reflexivity | exact Hone].
Qed.

(** At a small clock reading, the sum with a ttl of at least 1 second is
    after the clock reading, and the sum with a ttl of at most -1 second is
    before it. *)
Lemma add_int_moves (x : float) (n : Z) (sum : float) :
  Float.small x = true ->
  n <> 0 ->
  Float.add_int x n = Returned sum ->
  if n <? 0 then Float.gtb x sum = true else Float.gtb sum x = true.
Proof.
  intros Hsmall Hn. unfold Float.add_int.
  destruct (Float.of_int n) as [y|err] eqn:Hy; [|discriminate].
  destruct (of_int_nonzero n y Hn Hy) as (my & ey & -> & Hone).
  intros [= <-]. unfold Float.gtb, Float.add, Float.prec, Float.emax.
  destruct x as [sx|sx| |sx mx ex]; try discriminate Hsmall.
  - cbn [SFadd]. destruct (n <? 0); reflexivity.
  - exact (add_at_least_one sx (n <? 0) mx my ex ey Hsmall Hone).
Qed.

End rounding.

(** A ttl of at least one second, added to a small clock reading, gives a
    float after the clock reading. *)
Lemma add_int_after (x : float) (n : Z) (sum : float) :
  Float.small x = true →
  (1 ≤ n)%Z →
  Float.add_int x n = Returned sum →
  Float.gtb sum x = true.
Proof.
  intros Hsmall Hn Hsum.
  pose proof (add_int_moves x n sum Hsmall ltac:(lia) Hsum) as H.
  rewrite (proj2 (Z.ltb_ge n 0)) in H by lia. exact H.
Qed.

(** A ttl of at most minus one second, added to a small clock reading,
    gives a float before the clock reading. *)
Lemma add_int_before (x : float) (n : Z) (sum : float) :
  Float.small x = true →
  (n ≤ -1)%Z →
  Float.add_int x n = Returned sum →
  Float.gtb x sum = true.
Proof.
  intros Hsmall Hn Hsum.
  pose proof (add_int_moves x n sum Hsmall ltac:(lia) Hsum) as H.
  rewrite (proj2 (Z.ltb_lt n 0)) in H by lia. exact H.
Qed.

Lemma gtb_asym (x y : float) :
  Float.gtb x y = true → Float.gtb y x = false.
Proof.
  destruct x as [sx|sx| |sx mx ex], y as [sy|sy| |sy my ey];
    try destruct sx; try destruct sy;
    try (cbn; congruence); float_order.
Qed.

(** ** The in-process store: reading and writing *)

Section simple_store.
Import Simple.

Implicit Types (self : SimpleCacheManager) (key pattern : string).
Implicit Types (now : float) (val : value) (expire : Z).

Lemma set_stored now key val expire self (sum : float) :
  connected self = true →
  Float.add_int now expire = Returned sum →
  set now key val expire self =
    (true,
     {| cache := <[key := CacheEntry val sum now]> (cache self);
        connected := true |}).
Proof. intros Hc Hs. unfold set. rewrite Hc, Hs. reflexivity. Qed.

Lemma set_overflow now key val expire self (err : string) :
  Float.add_int now expire = Raised err →
  set now key val expire self = (false, self).
Proof.
  intros Hs. unfold set. rewrite Hs. destruct (connected self); reflexivity.
Qed.

(** A [set] with the default ttl, or with another ttl that has a float. *)
Lemma set_rounded now key val expire self :
  connected self = true →
  Float.of_int expire = Returned (Float.rounded expire) →
  set now key val expire self =
    (true,
     {| cache := <[key := CacheEntry val
                            (Float.add now (Float.rounded expire)) now]>
                   (cache self);
        connected := true |}).
Proof.
  intros Hc Hn. apply set_stored; [exact Hc | apply add_int_rounded, Hn].
Qed.

Lemma get_live now key self e :
  connected self = true →
  cache self !! key = Some e →
  Float.gtb now (expires_at e) = false →
  get now key self = (data e, self).
Proof.
  intros Hc He Hle. unfold get. rewrite Hc, He. simpl.
  rewrite Hle. reflexivity.
Qed.

Lemma get_expired now key self e :
  connected self = true →
  cache self !! key = Some e →
  Float.gtb now (expires_at e) = true →
  get now key self =
    (VNone, {| cache := base.delete key (cache self); connected := true |}).
Proof.
  intros Hc He Hlt. unfold get. rewrite Hc, He. simpl.
  rewrite Hlt. reflexivity.
Qed.

Lemma get_absent now key self :
  cache self !! key = None → get now key self = (VNone, self).
Proof.
  intros He. unfold get. rewrite He. destruct (connected self); reflexivity.
Qed.

Lemma get_keeps_connected now key self :
  connected (get now key self).2 = connected self.
Proof.
  unfold get. destruct (connected self) eqn:Hc; simpl; [|exact Hc].
  destruct (cache self !! key) as [e|]; [|exact Hc].
  destruct (Float.gtb now (expires_at e)); simpl; [reflexivity | exact Hc].
Qed.

Lemma set_keeps_connected now key val expire self :
  connected (set now key val expire self).2 = connected self.
Proof.
  unfold set. destruct (connected self) eqn:Hc; cbn [negb]; [|exact Hc].
  destruct (Float.add_int now expire); cbn; congruence.
Qed.

(** A [set] changes the entry of its key at most. *)
Lemma set_other_key now key val expire self (k : string) :
  k ≠ key →
  cache (set now key val expire self).2 !! k = cache self !! k.
Proof.
  intros Hk. unfold set. destruct (connected self); cbn [negb]; [|reflexivity].
  destruct (Float.add_int now expire); cbn [snd cache]; [|reflexivity].
  apply lookup_insert_ne. congruence.
Qed.

(** A [get] changes the entry of its key at most. *)
Lemma get_other_key now key self (k : string) :
  k ≠ key →
  cache (get now key self).2 !! k = cache self !! k.
Proof.
  intros Hk. unfold get. destruct (connected self); cbn [negb]; [|reflexivity].
  destruct (cache self !! key) as [e|]; [|reflexivity].
  destruct (Float.gtb now (expires_at e)); [|reflexivity].
  cbn [snd cache]. apply lookup_delete_ne. congruence.
Qed.

End simple_store.

(** ** Disabled managers *)

(** C2. Degrade-on-disconnect: on a manager whose [connected] flag is false,
    whatever the key, the value, the ttl, the pattern and the clock, [get]
    returns [None] and [set], [delete] and [clear_pattern] return [False];
    the calls return (no exception escapes them) and leave the manager, and
    for the Redis manager the service, as they were.  This holds for the
    in-process manager and for the Redis manager, whatever the client and the
    service do. *)
Theorem degrade_on_disconnect
    (self : Simple.SimpleCacheManager)
    (Client Service : Type)
    (redis_get : Client → string → Service → outcome (option string) * Service)
    (redis_setex :
       Client → string → Z → string → Service → outcome unit * Service)
    (redis_delete : Client → list string → Service → outcome unit * Service)
    (redis_keys : Client → string → Service → outcome (list string) * Service)
    (json_loads : string → outcome value)
    (json_dumps_default_str : value → outcome string)
    (rself : Redis.CacheManager Client) (srv : Service) :
  Simple.connected self = false →
  Redis.connected rself = false →
  ∀ (now : float) (key pattern : string) (val : value) (expire : Z),
    (Simple.get now key self = (VNone, self)
     ∧ Simple.set now key val expire self = (false, self)
     ∧ Simple.delete key self = (false, self)
     ∧ Simple.clear_pattern pattern self = (false, self))
    ∧ (Redis.get Client Service redis_get json_loads key (rself, srv)
         = (VNone, (rself, srv))
       ∧ Redis.set Client Service redis_setex json_dumps_default_str
           key val expire (rself, srv) = (false, (rself, srv))
       ∧ Redis.delete Client Service redis_delete key (rself, srv)
           = (false, (rself, srv))
       ∧ Redis.clear_pattern Client Service redis_delete redis_keys
           pattern (rself, srv) = (false, (rself, srv))).
Proof.
  intros Hs Hr now key pattern val expire. split.
  - unfold Simple.get, Simple.set, Simple.delete, Simple.clear_pattern.
    rewrite Hs. simpl. repeat split.
  - unfold Redis.get, Redis.set, Redis.delete, Redis.clear_pattern.
    rewrite Hr. repeat split.
Qed.

Lemma degrade_on_disconnect_witness :
  Simple.connected (Simple.disconnect Simple.init) = false
  ∧ Simple.get (Float.rounded 7) "k" (Simple.disconnect Simple.init)
    = (VNone, Simple.disconnect Simple.init)
  ∧ Simple.set (Float.rounded 7) "k" (VInt 1) 300
      (Simple.disconnect Simple.init)
    = (false, Simple.disconnect Simple.init).
Proof.
  split; [reflexivity|].
  destruct (degrade_on_disconnect (Simple.disconnect Simple.init) unit unit
              (λ _ _ srv, (Raised "unreachable", srv))
              (λ _ _ _ _ srv, (Raised "unreachable", srv))
              (λ _ _ srv, (Raised "unreachable", srv))
              (λ _ _ srv, (Raised "unreachable", srv))
              (λ _, Raised "not called") (λ _, Raised "not called")
              (Redis.Manager None false) tt eq_refl eq_refl
              (Float.rounded 7) "k" "k*" (VInt 1) 300%Z)
    as [(Hget & Hset & _) _].
  split; assumption.
Defined.

(** ** Expiry *)

Section expiry.
Import Simple.

(** C3, as amended.  On a connected in-process manager, a [set] with a
    positive ttl whose sum [current_time + expire] is computed stores the
    entry with that sum, the float sum [created_at + ttl], as [expires_at];
    [get] returns the value at every clock reading up to and including the
    stored [expires_at] (every reading that is not greater than it), and at
    every clock reading strictly after the stored [expires_at], [get]
    returns [None] and the entry is removed from the store.  When the
    [set] reads a small clock (a finite float of magnitude below [2^52]),
    the stored [expires_at] is after the clock reading of the [set], and the
    entry is retrievable immediately after the [set], at the same clock
    reading.  When the sum raises (a ttl beyond the range of the floats),
    [set] returns [False] and stores nothing. *)
Theorem expiry_boundary (self : SimpleCacheManager) (key : string)
    (val : value) (expire : Z) (t_set now : float) :
  connected self = true →
  (0 < expire)%Z →
  (∀ sum : float,
     Float.add_int t_set expire = Returned sum →
     let stored := (set t_set key val expire self).2 in
     cache stored !! key = Some (CacheEntry val sum t_set)
     ∧ (Float.gtb now sum = false → get now key stored = (val, stored))
     ∧ (Float.gtb now sum = true →
        (get now key stored).1 = VNone
        ∧ cache (get now key stored).2 !! key = None
        ∧ ∀ k, k ≠ key →
            cache (get now key stored).2 !! k = cache self !! k)
     ∧ (Float.small t_set = true →
        Float.gtb sum t_set = true
        ∧ get t_set key stored = (val, stored)))
  ∧ (∀ err : string,
       Float.add_int t_set expire = Raised err →
       set t_set key val expire self = (false, self)).
Proof.
  intros Hc Hpos.
  split; [|intros err Herr; exact (set_overflow _ _ _ _ _ _ Herr)].
  intros sum Hsum. rewrite (set_stored _ _ _ _ _ sum) by assumption.
  cbn [snd].
  set (stored := {| cache := _; connected := true |}).
  assert (cache stored !! key = Some (CacheEntry val sum t_set)) as Hentry
    by apply lookup_insert_eq.
  assert (∀ t, Float.gtb t sum = false → get t key stored = (val, stored))
    as Hlive.
  { intros t Ht.
    rewrite (get_live t key stored _ eq_refl Hentry Ht). reflexivity. }
  split; [exact Hentry|]. split; [apply Hlive|]. split.
  - intros Hlt. rewrite (get_expired now key stored _ eq_refl Hentry Hlt).
    cbn [fst snd cache]. split; [reflexivity|]. split.
    + apply lookup_delete_eq.
    + intros k Hk. unfold stored. cbn [cache].
      rewrite lookup_delete_ne, lookup_insert_ne by congruence.
      reflexivity.
  - intros Hsmall.
    assert (Float.gtb sum t_set = true) as Hafter.
    { apply (add_int_after t_set expire); [exact Hsmall | lia | exact Hsum]. }
    split; [exact Hafter|]. apply Hlive, gtb_asym, Hafter.
Qed.

(** C5, as amended.  On a connected in-process manager a ttl [<= 0] is not
    a special case.  A [set(key, value, ttl)] whose sum
    [current_time + expire] is computed stores the entry, with the float
    sum as [expires_at], and a later [get(key)] returns [None] at the clock
    readings greater than the stored [expires_at] and the value at the
    others.  With [ttl = 0] the stored [expires_at] compares as the clock
    reading of the [set]: a [get] at the same clock reading still returns
    the value, and every [get] at a greater clock reading returns [None].
    With a negative ttl every [get] at or after the [set] returns [None]
    when the [set] reads a small clock (a finite float of magnitude below
    [2^52]), and more generally when the stored sum is below the clock
    reading of the [set], that is, unless rounding absorbs the ttl.  When
    the sum raises, [set] returns [False] and stores nothing. *)
Theorem nonpositive_ttl_expired (self : SimpleCacheManager) (key : string)
    (val : value) (expire : Z) (t_set now : float) :
  connected self = true →
  (expire <= 0)%Z →
  (∀ sum : float,
     Float.add_int t_set expire = Returned sum →
     let stored := (set t_set key val expire self).2 in
     (Float.gtb now sum = true → (get now key stored).1 = VNone)
     ∧ (Float.gtb now sum = false → (get now key stored).1 = val)
     ∧ (expire = 0%Z →
        (get t_set key stored).1 = val
        ∧ (Float.gtb now t_set = true → (get now key stored).1 = VNone))
     ∧ (Float.gtb t_set sum = true → Float.leb t_set now = true →
        (get now key stored).1 = VNone)
     ∧ ((expire < 0)%Z → Float.small t_set = true →
        Float.gtb t_set sum = true
        ∧ (Float.leb t_set now = true → (get now key stored).1 = VNone)))
  ∧ (∀ err : string,
       Float.add_int t_set expire = Raised err →
       set t_set key val expire self = (false, self)).
Proof.
  intros Hc _. split; [|intros err Herr; exact (set_overflow _ _ _ _ _ _ Herr)].
  intros sum Hsum. rewrite (set_stored _ _ _ _ _ sum) by assumption.
  cbn [snd].
  set (stored := {| cache := _; connected := true |}).
  assert (cache stored !! key = Some (CacheEntry val sum t_set)) as Hentry
    by apply lookup_insert_eq.
  assert (∀ t, Float.gtb t sum = true → (get t key stored).1 = VNone)
    as Hgone.
  { intros t Ht.
    rewrite (get_expired t key stored _ eq_refl Hentry Ht). reflexivity. }
  assert (∀ t, Float.gtb t sum = false → (get t key stored).1 = val)
    as Hlive.
  { intros t Ht.
    rewrite (get_live t key stored _ eq_refl Hentry Ht). reflexivity. }
  split; [apply Hgone|]. split; [apply Hlive|]. split.
  - intros ->. rewrite add_int_zero in Hsum. injection Hsum as <-. split.
    + apply Hlive. rewrite gtb_add_zero. apply gtb_irrefl.
    + intros Hlater. apply Hgone. rewrite gtb_add_zero. exact Hlater.
  - split.
    + intros Hbelow Hafter. apply Hgone.
      exact (gtb_mono t_set now sum Hafter Hbelow).
    + intros Hneg Hsmall.
      assert (Float.gtb t_set sum = true) as Hbelow.
      { apply (add_int_before t_set expire);
          [exact Hsmall | lia | exact Hsum]. }
      split; [exact Hbelow|]. intros Hafter. apply Hgone.
      exact (gtb_mono t_set now sum Hafter Hbelow).
Qed.

(** C8, as amended.  The entry that [set] creates on a connected manager
    has [created_at] the clock reading of the call and [expires_at] the
    float sum [created_at + ttl]; every other key keeps its entry.  With
    [ttl = 0] the entry does not have [expires_at > created_at], whatever
    the clock reading.  When the clock reading is small (a finite float of
    magnitude below [2^52]), the entry has [expires_at > created_at] for
    every positive ttl, and [expires_at < created_at] for every negative
    one.  When the sum raises, no entry is created. *)
Theorem entry_timestamps (self : SimpleCacheManager) (key : string)
    (val : value) (expire : Z) (now : float) :
  connected self = true →
  (∀ sum : float,
     Float.add_int now expire = Returned sum →
     (set now key val expire self).1 = true
     ∧ (∃ e, cache (set now key val expire self).2 !! key = Some e
             ∧ data e = val
             ∧ created_at e = now
             ∧ expires_at e = sum
             ∧ Float.gtb (expires_at e) (created_at e) = Float.gtb sum now
             ∧ (expire = 0%Z →
                Float.gtb (expires_at e) (created_at e) = false)
             ∧ (Float.small now = true → (0 < expire)%Z →
                Float.gtb (expires_at e) (created_at e) = true)
             ∧ (Float.small now = true → (expire < 0)%Z →
                Float.gtb (expires_at e) (created_at e) = false
                ∧ Float.gtb (created_at e) (expires_at e) = true))
     ∧ (∀ k, k ≠ key →
          cache (set now key val expire self).2 !! k = cache self !! k))
  ∧ (∀ err : string,
       Float.add_int now expire = Raised err →
       set now key val expire self = (false, self)).
Proof.
  intros Hc. split; [|intros err Herr; exact (set_overflow _ _ _ _ _ _ Herr)].
  intros sum Hsum. split; [|split].
  - rewrite (set_stored _ _ _ _ _ sum) by assumption. reflexivity.
  - rewrite (set_stored _ _ _ _ _ sum) by assumption. cbn [snd cache].
    eexists. split; [apply lookup_insert_eq|]. cbn [data created_at expires_at].
    split; [reflexivity|]. split; [reflexivity|]. split; [reflexivity|].
    split; [reflexivity|]. split; [|split].
    + intros ->. rewrite add_int_zero in Hsum.
      injection Hsum as <-. rewrite add_zero_gtb. apply gtb_irrefl.
    + intros Hsmall Hpos.
      apply (add_int_after now expire); [exact Hsmall | lia | exact Hsum].
    + intros Hsmall Hneg.
      assert (Float.gtb now sum = true) as Hbelow.
      { apply (add_int_before now expire);
          [exact Hsmall | lia | exact Hsum]. }
      split; [apply gtb_asym|]; exact Hbelow.
  - intros k Hk. apply set_other_key. exact Hk.
Qed.

(** C10.  On a connected in-process manager, [delete(key)] returns [True]
    whether or not the key is stored, the key is absent afterwards, and the
    entry under every other key is unchanged. *)
Theorem delete_connected (self : SimpleCacheManager) (key : string) :
  connected self = true →
  (delete key self).1 = true
  ∧ connected (delete key self).2 = true
  ∧ cache (delete key self).2 !! key = None
  ∧ ∀ k, k ≠ key → cache (delete key self).2 !! k = cache self !! k.
Proof.
  intros Hc. unfold delete. rewrite Hc. cbn.
  split; [reflexivity|]. split; [reflexivity|].
  destruct (decide (is_Some (cache self !! key))) as [Hin | Hout].
  - split; [apply lookup_delete_eq|].
    intros k Hk. apply lookup_delete_ne. congruence.
  - split; [|reflexivity].
    apply eq_None_not_Some. exact Hout.
Qed.

End expiry.

(** At the clock reading [created_at + ttl] itself (the sum of 0 and 1 is
    exact) the entry is still returned, and stays in the store. *)
Lemma expiry_boundary_counterexample :
  Float.add_int (Float.rounded 0) 1 = Returned (Float.rounded 1)
  ∧ Simple.get (Float.rounded 1) "k"
      (Simple.set (Float.rounded 0) "k" (VInt 1) 1 Simple.init).2
    = (VInt 1, (Simple.set (Float.rounded 0) "k" (VInt 1) 1 Simple.init).2)
  ∧ Simple.cache
      (Simple.get (Float.rounded 1) "k"
         (Simple.set (Float.rounded 0) "k" (VInt 1) 1 Simple.init).2).2
      !! "k" ≠ None.
Proof.
  split; [reflexivity|]. split; [vm_compute; reflexivity|].
  vm_compute. discriminate.
Qed.

(** An entry set at 0 with a ttl of 1 second: returned at [0.5], gone at 2;
    an entry set at the clock reading 1700000000 with a ttl of 1 second:
    returned at that clock reading; and a ttl of [10^400] seconds, for which
    [set] fails. *)
Lemma expiry_boundary_witness :
  Simple.connected Simple.init = true
  ∧ (0 < 1)%Z
  ∧ Simple.get (S754_finite false 4503599627370496 (-53)) "k"
      (Simple.set (Float.rounded 0) "k" (VInt 1) 1 Simple.init).2
    = (VInt 1, (Simple.set (Float.rounded 0) "k" (VInt 1) 1 Simple.init).2)
  ∧ (Simple.get (Float.rounded 2) "k"
       (Simple.set (Float.rounded 0) "k" (VInt 1) 1 Simple.init).2).1
    = VNone
  ∧ (Float.small (Float.rounded 1700000000) = true
     ∧ Simple.get (Float.rounded 1700000000) "k"
         (Simple.set (Float.rounded 1700000000) "k" (VInt 1) 1
            Simple.init).2
       = (VInt 1,
          (Simple.set (Float.rounded 1700000000) "k" (VInt 1) 1
             Simple.init).2))
  ∧ Simple.set (Float.rounded 0) "k" (VInt 1) (10 ^ 400) Simple.init
    = (false, Simple.init).
Proof.
  split; [reflexivity|]. split; [lia|]. split; [|split; [|split]].
  - pose proof (expiry_boundary Simple.init "k" (VInt 1) 1 (Float.rounded 0)
                  (S754_finite false 4503599627370496 (-53))
                  eq_refl eq_refl) as [Hstored _].
    destruct (Hstored (Float.rounded 1) eq_refl) as (_ & Hlive & _).
    apply Hlive. vm_compute. reflexivity.
  - pose proof (expiry_boundary Simple.init "k" (VInt 1) 1 (Float.rounded 0)
                  (Float.rounded 2) eq_refl eq_refl) as [Hstored _].
    destruct (Hstored (Float.rounded 1) eq_refl) as (_ & _ & Hgone & _).
    apply Hgone. vm_compute. reflexivity.
  - split; [vm_compute; reflexivity|].
    pose proof (expiry_boundary Simple.init "k" (VInt 1) 1
                  (Float.rounded 1700000000) (Float.rounded 1700000000)
                  eq_refl eq_refl) as [Hstored _].
    destruct (Hstored (Float.rounded 1700000001) ltac:(vm_compute; reflexivity))
      as (_ & _ & _ & Hsmall).
    apply Hsmall. vm_compute. reflexivity.
  - pose proof (expiry_boundary Simple.init "k" (VInt 1) (10 ^ 400)
                  (Float.rounded 0) (Float.rounded 0) eq_refl eq_refl)
      as [_ Hraise].
    apply (Hraise "int too large to convert to float").
    vm_compute. reflexivity.
Defined.

(** With [ttl = 0] and no clock advance the entry is returned; so it is
    with [ttl = -1] at the clock reading [2^60], where the sum rounds to
    the clock reading. *)
Lemma nonpositive_ttl_counterexample :
  (0 <= 0)%Z
  ∧ Float.leb (Float.rounded 5) (Float.rounded 5) = true
  ∧ (Simple.get (Float.rounded 5) "k"
       (Simple.set (Float.rounded 5) "k" (VInt 1) 0 Simple.init).2).1
    = VInt 1
  ∧ (-1 <= 0)%Z
  ∧ Float.add_int (Float.rounded (2 ^ 60)) (-1)
    = Returned (Float.rounded (2 ^ 60))
  ∧ (Simple.get (Float.rounded (2 ^ 60)) "k"
       (Simple.set (Float.rounded (2 ^ 60)) "k" (VInt 1) (-1)
          Simple.init).2).1
    = VInt 1.
Proof.
  split; [lia|]. split; [vm_compute; reflexivity|].
  split; [vm_compute; reflexivity|]. split; [lia|].
  split; vm_compute; reflexivity.
Qed.

(** A ttl of -5 seconds and a ttl of 0: the entry is gone at the clock
    reading of the [set] with the first, after it with the second; a ttl of
    -1 second at the clock reading 1700000000; and a ttl of [-(10^400)]
    seconds, for which [set] fails. *)
Lemma nonpositive_ttl_expired_witness :
  (Simple.get (Float.rounded 5) "k"
     (Simple.set (Float.rounded 5) "k" (VInt 1) (-5) Simple.init).2).1
  = VNone
  ∧ (Float.small (Float.rounded 1700000000) = true
     ∧ (Simple.get (Float.rounded 1700000000) "k"
          (Simple.set (Float.rounded 1700000000) "k" (VInt 1) (-1)
             Simple.init).2).1
       = VNone)
  ∧ (Simple.get (Float.rounded 6) "k"
       (Simple.set (Float.rounded 5) "k" (VInt 1) 0 Simple.init).2).1
    = VNone
  ∧ (Simple.get (Float.rounded 5) "k"
       (Simple.set (Float.rounded 5) "k" (VInt 1) 0 Simple.init).2).1
    = VInt 1
  ∧ Simple.set (Float.rounded 5) "k" (VInt 1) (- 10 ^ 400) Simple.init
    = (false, Simple.init).
Proof.
  split; [|split; [|split; [|split]]].
  - pose proof (nonpositive_ttl_expired Simple.init "k" (VInt 1) (-5)
                  (Float.rounded 5) (Float.rounded 5) eq_refl) as [H _];
      [lia|].
    destruct (H (Float.rounded 0) eq_refl) as (_ & _ & _ & Hneg & _).
    apply Hneg; vm_compute; reflexivity.
  - split; [vm_compute; reflexivity|].
    pose proof (nonpositive_ttl_expired Simple.init "k" (VInt 1) (-1)
                  (Float.rounded 1700000000) (Float.rounded 1700000000)
                  eq_refl) as [H _]; [lia|].
    destruct (H (Float.rounded 1699999999) ltac:(vm_compute; reflexivity))
      as (_ & _ & _ & _ & Hsmall).
    apply Hsmall; [lia | vm_compute; reflexivity | vm_compute; reflexivity].
  - pose proof (nonpositive_ttl_expired Simple.init "k" (VInt 1) 0
                  (Float.rounded 5) (Float.rounded 6) eq_refl) as [H _];
      [lia|].
    destruct (H (Float.rounded 5) eq_refl) as (_ & _ & Hzero & _).
    apply (Hzero eq_refl). vm_compute. reflexivity.
  - pose proof (nonpositive_ttl_expired Simple.init "k" (VInt 1) 0
                  (Float.rounded 5) (Float.rounded 6) eq_refl) as [H _];
      [lia|].
    destruct (H (Float.rounded 5) eq_refl) as (_ & _ & Hzero & _).
    apply (Hzero eq_refl).
  - pose proof (nonpositive_ttl_expired Simple.init "k" (VInt 1)
                  (- 10 ^ 400) (Float.rounded 5) (Float.rounded 5) eq_refl)
      as [_ Hraise]; [vm_compute; discriminate|].
    apply (Hraise "int too large to convert to float").
    vm_compute. reflexivity.
Defined.

(** With [ttl = 0] the entry that [set] creates has
    [expires_at = created_at]; so has the entry of a [set] with [ttl = 1] at
    the clock reading [2^60], where the sum rounds to the clock reading. *)
Lemma entry_timestamps_counterexample :
  (∃ e, Simple.cache
          (Simple.set (Float.rounded 5) "k" (VInt 1) 0 Simple.init).2 !! "k"
        = Some e
        ∧ Float.gtb (Simple.expires_at e) (Simple.created_at e) = false)
  ∧ (∃ e, Simple.cache
            (Simple.set (Float.rounded (2 ^ 60)) "k" (VInt 1) 1
               Simple.init).2 !! "k"
          = Some e
          ∧ Float.gtb (Simple.expires_at e) (Simple.created_at e) = false).
Proof.
  split.
  - exists (Simple.CacheEntry (VInt 1) (Float.rounded 5) (Float.rounded 5)).
    split; vm_compute; reflexivity.
  - exists (Simple.CacheEntry (VInt 1) (Float.rounded (2 ^ 60))
              (Float.rounded (2 ^ 60))).
    split; vm_compute; reflexivity.
Qed.

(** The entry of a [set] at the clock reading 1700000000, a small one,
    with the default ttl: it expires at 1700000300. *)
Lemma entry_timestamps_witness :
  ∃ e, Simple.cache
         (Simple.set (Float.rounded 1700000000) "k" (VInt 1) 300
            Simple.init).2 !! "k"
       = Some e
       ∧ Simple.data e = VInt 1
       ∧ Simple.created_at e = Float.rounded 1700000000
       ∧ Simple.expires_at e = Float.rounded 1700000300
       ∧ Float.gtb (Simple.expires_at e) (Simple.created_at e) = true.
Proof.
  pose proof (entry_timestamps Simple.init "k" (VInt 1) 300
                (Float.rounded 1700000000) eq_refl) as [H _].
  destruct (H (Float.rounded 1700000300))
    as (_ & (e & He & Hd & Hc & Hx & _ & _ & Hpos & _) & _);
    [vm_compute; reflexivity|].
  exists e. split; [exact He|]. split; [exact Hd|]. split; [exact Hc|].
  split; [exact Hx|]. apply Hpos; [vm_compute; reflexivity | lia].
Defined.

Lemma delete_connected_witness :
  (Simple.delete "k" Simple.init).1 = true
  ∧ (Simple.delete "k"
       (Simple.set (Float.rounded 5) "k" (VInt 1) 300 Simple.init).2).1
    = true.
Proof.
  split.
  - apply (delete_connected Simple.init "k"). reflexivity.
  - apply (delete_connected
             (Simple.set (Float.rounded 5) "k" (VInt 1) 300 Simple.init).2
             "k").
    reflexivity.
Defined.

(** ** Bulk deletion *)

Section bulk_deletion.
Import Simple.

Implicit Types (c : gmap string cache_entry) (self : SimpleCacheManager).

Lemma lookup_del_all (ks : list string) c (k : string) :
  del_all ks c !! k = if decide (k ∈ ks) then None else c !! k.
Proof.
  unfold del_all. revert c.
  induction ks as [|a ks IH]; intros c; cbn [foldl].
  - destruct (decide (k ∈ [])) as [Hin | _]; [|reflexivity].
    apply not_elem_of_nil in Hin. contradiction.
  - rewrite IH.
    destruct (decide (k ∈ ks)) as [Hin | Hout],
             (decide (k ∈ a :: ks)) as [Hin' | Hout'].
    + reflexivity.
    + exfalso. apply Hout'. apply elem_of_cons. right. exact Hin.
    + apply elem_of_cons in Hin' as [-> | Hin']; [|contradiction].
      apply lookup_delete_eq.
    + apply lookup_delete_ne. intros ->. apply Hout'.
      apply elem_of_cons. left. reflexivity.
Qed.

(** Deleting the keys selected by a test on the items leaves the items that
    fail the test. *)
Lemma del_all_selected (P : string * cache_entry → Prop)
    `{∀ kv, Decision (P kv)} c :
  del_all (fst <$> filter P (map_to_list c)) c = filter (λ kv, ¬ P kv) c.
Proof.
  apply map_eq. intros k. rewrite lookup_del_all.
  apply option_eq. intros e. rewrite map_lookup_filter_Some.
  destruct (decide (k ∈ fst <$> filter P (map_to_list c))) as [Hin | Hout].
  - split; [discriminate|]. intros [Hk HP]. exfalso.
    apply list_elem_of_fmap in Hin as [[k' e'] [-> Hin]].
    apply list_elem_of_filter in Hin as [HP' Hin].
    apply elem_of_map_to_list in Hin. simpl in *.
    rewrite Hin in Hk. injection Hk as ->. exact (HP HP').
  - split; [|intros [Hk _]; exact Hk].
    intros Hk. split; [exact Hk|]. intros HP. apply Hout.
    apply list_elem_of_fmap. exists (k, e). split; [reflexivity|].
    apply list_elem_of_filter. split; [exact HP|].
    apply elem_of_map_to_list. exact Hk.
Qed.

Lemma startswith_refl (k : string) : startswith k k = true.
Proof.
  induction k as [|a k IH]; simpl; [reflexivity|].
  rewrite Ascii.eqb_refl. exact IH.
Qed.

Lemma replace_star_no_star (pattern : string) :
  has_star pattern = false → replace_star pattern = pattern.
Proof.
  induction pattern as [|a p IH]; simpl; [reflexivity|].
  intros [Ha Hp]%orb_false_iff. rewrite Ha, IH by exact Hp. reflexivity.
Qed.

Lemma no_star_not_universal (pattern : string) :
  has_star pattern = false → String.eqb pattern "*" = false.
Proof.
  intros Hp. apply String.eqb_neq. intros ->. discriminate Hp.
Qed.

(** The store after [clear_pattern], for a pattern other than ["*"]. *)
Lemma clear_pattern_cache self (pattern : string) :
  connected self = true →
  String.eqb pattern "*" = false →
  clear_pattern pattern self =
    (true,
     {| cache := filter (λ kv, ¬ startswith kv.1 (replace_star pattern) = true)
                        (cache self);
        connected := true |}).
Proof.
  intros Hc Hp. unfold clear_pattern. rewrite Hc, Hp. cbn [negb].
  f_equal. f_equal.
  rewrite <- (del_all_selected
                (λ kv, startswith kv.1 (replace_star pattern) = true)).
  f_equal. induction (map_to_list (cache self)) as [|[k e] l IH];
    [reflexivity|].
  rewrite filter_cons, fmap_cons. cbn [fst].
  rewrite (filter_cons (λ key : string, _)).
  destruct (decide (startswith k (replace_star pattern) = true));
    rewrite ?fmap_cons, IH; reflexivity.
Qed.

Lemma clear_pattern_lookup self (pattern k : string) :
  connected self = true →
  String.eqb pattern "*" = false →
  cache (clear_pattern pattern self).2 !! k =
    if startswith k (replace_star pattern) then None else cache self !! k.
Proof.
  intros Hc Hp. rewrite clear_pattern_cache by assumption. cbn [snd cache].
  apply option_eq. intros e. rewrite map_lookup_filter_Some. cbn [fst].
  destruct (startswith k (replace_star pattern)).
  - split; [intros [_ Hn]; contradiction | discriminate].
  - split; [intros [Hk _]; exact Hk | intros Hk; split; [exact Hk|discriminate]].
Qed.

(** The store after [_cleanup_expired]. *)
Lemma cleanup_expired_cache (now : float) self :
  _cleanup_expired now self =
    {| cache := filter (λ kv, ¬ Float.gtb now (expires_at kv.2) = true)
                       (cache self);
       connected := connected self |}.
Proof.
  unfold _cleanup_expired. f_equal.
  apply (del_all_selected (λ kv, Float.gtb now (expires_at kv.2) = true)).
Qed.

End bulk_deletion.

(** ** Clearing by pattern *)

Section pattern_clear.
Import Simple.

(** C6.  The defect of [clear_pattern] on a pattern without wildcard.  The
    docstring reads "Clear all keys matching pattern" and the Redis manager
    hands the pattern to the service, for which a pattern without wildcard
    matches the equal key only.  On a connected in-process manager the call
    succeeds and removes the entry of the pattern, but also the entry of
    every other key [k] that starts with the pattern; the keys that do not
    start with it keep their entries. *)
Theorem clear_pattern_no_wildcard (self : SimpleCacheManager)
    (pattern k : string) (e : cache_entry) :
  connected self = true →
  has_star pattern = false →
  startswith k pattern = true →
  k ≠ pattern →
  cache self !! k = Some e →
  (clear_pattern pattern self).1 = true
  ∧ cache (clear_pattern pattern self).2 !! pattern = None
  ∧ cache (clear_pattern pattern self).2 !! k = None
  ∧ (∀ k', startswith k' pattern = false →
           cache (clear_pattern pattern self).2 !! k' = cache self !! k').
Proof.
  intros Hc Hp Hk _ _.
  pose proof (no_star_not_universal _ Hp) as Hne.
  pose proof (replace_star_no_star _ Hp) as Hid.
  split; [rewrite clear_pattern_cache by assumption; reflexivity|].
  split; [|split].
  - rewrite clear_pattern_lookup by assumption.
    rewrite Hid, startswith_refl. reflexivity.
  - rewrite clear_pattern_lookup by assumption. rewrite Hid, Hk. reflexivity.
  - intros k' Hk'. rewrite clear_pattern_lookup by assumption.
    rewrite Hid, Hk'. reflexivity.
Qed.

(** C7.  Pattern clear scoping: on a connected in-process manager, after
    [set("products:abc", x)] and [set("product:xyz", y)] (with the default
    ttl), [clear_pattern("products:*")] succeeds, removes the key
    ["products:abc"] and leaves ["product:xyz"], as every key that does not
    start with ["products:"], untouched; a [get("product:xyz")] then returns
    [y], at every clock reading up to the [expires_at] of its entry, the
    float sum of the clock reading of its [set] and 300.  When the store was
    empty before, the entry of ["product:xyz"] is all that is left. *)
Theorem pattern_clear_scoping (self : SimpleCacheManager) (x y : value)
    (t1 t2 t3 : float) :
  connected self = true →
  let stored :=
    (set t2 "product:xyz" y default_expire
       (set t1 "products:abc" x default_expire self).2).2 in
  let cleared := clear_pattern "products:*" stored in
  let kept :=
    CacheEntry y (Float.add t2 (Float.rounded default_expire)) t2 in
  cleared.1 = true
  ∧ cache cleared.2 !! "products:abc" = None
  ∧ cache cleared.2 !! "product:xyz" = Some kept
  ∧ (∀ k, startswith k "products:" = false →
          cache cleared.2 !! k = cache stored !! k)
  ∧ (Float.gtb t3 (Float.add t2 (Float.rounded default_expire)) = false →
     (get t3 "product:xyz" cleared.2).1 = y)
  ∧ (cache self = ∅ → cache cleared.2 = {[ "product:xyz" := kept ]}).
Proof.
  intros Hc. cbn zeta.
  rewrite (set_rounded t1) by (exact Hc || reflexivity). cbn [snd].
  rewrite (set_rounded t2) by reflexivity. cbn [snd cache].
  set (kept := CacheEntry y (Float.add t2 (Float.rounded default_expire)) t2).
  set (stored := {| cache := _; connected := true |}).
  assert (∀ k, cache (clear_pattern "products:*" stored).2 !! k =
               if startswith k "products:" then None else cache stored !! k)
    as Hlook by (intros k; apply clear_pattern_lookup; reflexivity).
  assert (cache (clear_pattern "products:*" stored).2 !! "product:xyz"
          = Some kept) as Hkept.
  { rewrite Hlook. cbn [startswith Ascii.eqb Bool.eqb]. unfold stored.
    cbn [cache]. apply lookup_insert_eq. }
  split; [rewrite clear_pattern_cache by reflexivity; reflexivity|].
  split; [rewrite Hlook; reflexivity|].
  split; [exact Hkept|].
  split; [intros k Hk; rewrite Hlook, Hk; reflexivity|].
  split.
  - intros Hwin.
    rewrite (get_live t3 _ _ kept); [reflexivity | | exact Hkept | exact Hwin].
    rewrite clear_pattern_cache by reflexivity. reflexivity.
  - intros Hempty. apply map_eq. intros k. rewrite Hlook. unfold stored.
    cbn [cache]. rewrite Hempty.
    destruct (decide (k = "product:xyz")) as [->|Hk].
    + rewrite lookup_singleton_eq. cbn [startswith Ascii.eqb Bool.eqb].
      apply lookup_insert_eq.
    + rewrite lookup_singleton_ne by congruence.
      destruct (startswith k "products:") eqn:Hs; [reflexivity|].
      rewrite lookup_insert_ne by congruence.
      destruct (decide (k = "products:abc")) as [->|Hk'];
        [discriminate Hs|].
      rewrite lookup_insert_ne by congruence. apply lookup_empty.
Qed.

End pattern_clear.

(** The failing input: a store with the keys ["x"] and ["xy"].  The pattern
    ["x"] has no wildcard, and clearing it also removes the entry of the key
    ["xy"]. *)
Lemma clear_pattern_no_wildcard_witness :
  Simple.has_star "x" = false
  ∧ "xy" ≠ "x"
  ∧ Simple.cache
      (Simple.set (Float.rounded 0) "x" (VInt 1) 300
         (Simple.set (Float.rounded 0) "xy" (VInt 2) 300
            Simple.init).2).2 !! "xy"
    = Some (Simple.CacheEntry (VInt 2) (Float.rounded 300) (Float.rounded 0))
  ∧ Simple.cache
      (Simple.clear_pattern "x"
         (Simple.set (Float.rounded 0) "x" (VInt 1) 300
            (Simple.set (Float.rounded 0) "xy" (VInt 2) 300
               Simple.init).2).2).2 !! "xy"
    = None.
Proof.
  split; [reflexivity|]. split; [discriminate|].
  split; [vm_compute; reflexivity|].
  apply (clear_pattern_no_wildcard
           (Simple.set (Float.rounded 0) "x" (VInt 1) 300
              (Simple.set (Float.rounded 0) "xy" (VInt 2) 300
                 Simple.init).2).2
           "x" "xy"
           (Simple.CacheEntry (VInt 2) (Float.rounded 300)
              (Float.rounded 0)));
    [reflexivity | reflexivity | reflexivity | discriminate
    | vm_compute; reflexivity].
Defined.

(** On the same store the key count goes from 2 to 0 when the pattern ["x"]
    is cleared, not from 2 to 1. *)
Example clear_pattern_prefix_key_count :
  Simple.keys
    (Simple.get_cache_stats (Float.rounded 1)
       (Simple.set (Float.rounded 0) "x" (VInt 1) 300
          (Simple.set (Float.rounded 0) "xy" (VInt 2) 300
             Simple.init).2).2).1
  = 2
  ∧ Simple.keys
      (Simple.get_cache_stats (Float.rounded 1)
         (Simple.clear_pattern "x"
            (Simple.get_cache_stats (Float.rounded 1)
               (Simple.set (Float.rounded 0) "x" (VInt 1) 300
                  (Simple.set (Float.rounded 0) "xy" (VInt 2) 300
                     Simple.init).2).2).2).2).1
    = 0.
Proof. split; vm_compute; reflexivity. Qed.

Lemma pattern_clear_scoping_witness :
  Simple.cache
    (Simple.clear_pattern "products:*"
       (Simple.set (Float.rounded 1) "product:xyz" (VInt 2)
          Simple.default_expire
          (Simple.set (Float.rounded 0) "products:abc" (VInt 1)
             Simple.default_expire Simple.init).2).2).2 !! "products:abc"
  = None
  ∧ (Simple.get (Float.rounded 2) "product:xyz"
       (Simple.clear_pattern "products:*"
          (Simple.set (Float.rounded 1) "product:xyz" (VInt 2)
             Simple.default_expire
             (Simple.set (Float.rounded 0) "products:abc" (VInt 1)
                Simple.default_expire Simple.init).2).2).2).1 = VInt 2.
Proof.
  pose proof (pattern_clear_scoping Simple.init (VInt 1) (VInt 2)
                (Float.rounded 0) (Float.rounded 1) (Float.rounded 2)
                eq_refl) as H.
  destruct H as (_ & Hgone & _ & _ & Hget & _).
  split; [exact Hgone | apply Hget; vm_compute; reflexivity].
Defined.

(** ** Key derivation *)

Section canonical_form.
Import Json.

Lemma string_leb_trans (a b c : string) :
  String.leb a b = true → String.leb b c = true → String.leb a c = true.
Proof.
  unfold String.leb.
  destruct (String.compare a b) eqn:Hab; [| |discriminate];
    destruct (String.compare b c) eqn:Hbc; [| |discriminate| | |discriminate];
    intros _ _.
  - apply String.compare_eq_iff in Hab as ->. rewrite Hbc. reflexivity.
  - apply String.compare_eq_iff in Hab as ->. rewrite Hbc. reflexivity.
  - apply String.compare_eq_iff in Hbc as <-. rewrite Hab. reflexivity.
  - apply OrderedTypeEx.String_as_OT.cmp_lt in Hab, Hbc.
    pose proof (OrderedTypeEx.String_as_OT.lt_trans _ _ _ Hab Hbc) as Hac.
    apply OrderedTypeEx.String_as_OT.cmp_lt in Hac.
    unfold OrderedTypeEx.String_as_OT.cmp in Hac. rewrite Hac. reflexivity.
Qed.

#[local] Instance item_le_trans {A} : Transitive (@item_le A).
Proof. intros x y z. unfold item_le. apply string_leb_trans. Qed.

#[local] Instance item_le_total {A} : Total (@item_le A).
Proof. intros x y. unfold item_le. apply String.leb_total. Qed.

(** Items with pairwise distinct keys are determined by their key. *)
Lemma item_of_key {A} (l : list (string * A)) (a b : string * A) :
  NoDup l.*1 → a ∈ l → b ∈ l → a.1 = b.1 → a = b.
Proof.
  induction l as [|x l IH]; intros Hnd Ha Hb Hk.
  - apply elem_of_nil in Ha. contradiction.
  - rewrite fmap_cons in Hnd. apply NoDup_cons in Hnd as [Hx Hnd].
    apply elem_of_cons in Ha as [->|Ha]; apply elem_of_cons in Hb as [->|Hb].
    + reflexivity.
    + exfalso. apply Hx. rewrite Hk. apply list_elem_of_fmap_2. exact Hb.
    + exfalso. apply Hx. rewrite <- Hk. apply list_elem_of_fmap_2. exact Ha.
    + apply IH; assumption.
Qed.

(** Sorting forgets the order of insertion. *)
Lemma sorted_items_perm {A} (l l' : list (string * A)) :
  NoDup l.*1 → l ≡ₚ l' → sorted_items l = sorted_items l'.
Proof.
  intros Hnd Hperm. unfold sorted_items.
  apply (Sorted_unique_strong item_le).
  - intros a b Ha Hb Hab Hba.
    apply (item_of_key l); [exact Hnd | | |].
    + rewrite merge_sort_Permutation in Ha. exact Ha.
    + rewrite merge_sort_Permutation, <- Hperm in Hb. exact Hb.
    + apply String.leb_antisym; assumption.
  - apply Sorted_merge_sort. apply _.
  - apply Sorted_merge_sort. apply _.
  - rewrite !merge_sort_Permutation. exact Hperm.
Qed.

(** Sorting looks at the keys only: it commutes with a change of the
    values, such as their encoding. *)
Section sorted_items_encode.
Context {A B : Type} (f : A → B).
Let g : string * A → string * B := λ kv, (kv.1, f kv.2).
Let gs : list (option (list (string * A)))
         → list (option (list (string * B))) :=
  fmap (M := list) (fmap (M := option) (fmap (M := list) g)).

Lemma list_merge_encode (l1 l2 : list (string * A)) :
  list_merge item_le (g <$> l1) (g <$> l2)
  = g <$> list_merge item_le l1 l2.
Proof.
  revert l2. induction l1 as [|x1 l1 IH1]; intros l2.
  - rewrite fmap_nil, !list_merge_nil_l. reflexivity.
  - induction l2 as [|x2 l2 IH2].
    + rewrite fmap_nil, !list_merge_nil_r. reflexivity.
    + rewrite !fmap_cons, !list_merge_cons.
      change (item_le (g x1) (g x2)) with (item_le x1 x2).
      destruct (decide (item_le x1 x2)).
      * rewrite fmap_cons. f_equal. rewrite <- IH1, fmap_cons.
        reflexivity.
      * rewrite fmap_cons. f_equal. rewrite <- IH2, fmap_cons.
        reflexivity.
Qed.

Lemma merge_list_to_stack_encode
    (st : list (option (list (string * A)))) (l : list (string * A)) :
  merge_list_to_stack item_le (gs st) (g <$> l)
  = gs (merge_list_to_stack item_le st l).
Proof.
  revert l. induction st as [|[l'|] st IH]; intros l; cbn.
  - reflexivity.
  - rewrite list_merge_encode, IH. reflexivity.
  - reflexivity.
Qed.

Lemma merge_stack_encode (st : list (option (list (string * A)))) :
  merge_stack item_le (gs st)
  = g <$> merge_stack item_le st.
Proof.
  induction st as [|[l'|] st IH]; cbn.
  - reflexivity.
  - rewrite IH. apply list_merge_encode.
  - exact IH.
Qed.

Lemma merge_sort_aux_encode
    (st : list (option (list (string * A)))) (l : list (string * A)) :
  merge_sort_aux item_le (gs st) (g <$> l)
  = g <$> merge_sort_aux item_le st l.
Proof.
  revert st. induction l as [|x l IH]; intros st; cbn.
  - apply merge_stack_encode.
  - rewrite <- IH. f_equal.
    apply (merge_list_to_stack_encode st [x]).
Qed.

Lemma sorted_items_encode (items : list (string * A)) :
  sorted_items (g <$> items) = g <$> sorted_items items.
Proof. apply (merge_sort_aux_encode [] items). Qed.
End sorted_items_encode.

Lemma distinct_keys_list (items : list value) :
  distinct_keys (VList items) = true →
  Forall (λ v, distinct_keys v = true) items.
Proof. cbn. intros H. apply Forall_forall. intros v Hv.
       rewrite forallb_forall in H. apply H. apply list_elem_of_In. exact Hv. Qed.

Lemma distinct_keys_dict (items : list (string * value)) :
  distinct_keys (VDict items) = true →
  NoDup items.*1 ∧ Forall (λ kv, distinct_keys kv.2 = true) items.
Proof.
  cbn. intros [Hnd H]%andb_true_iff. split.
  - apply bool_decide_eq_true in Hnd. exact Hnd.
  - apply Forall_forall. intros kv Hkv. rewrite forallb_forall in H.
    apply H. apply list_elem_of_In. exact Hkv.
Qed.

(** Values with the same content have the same serialisation. *)
Lemma dumps_sorted_same_pairs (v1 : value) :
  ∀ v2, same_pairs v1 v2 → distinct_keys v1 = true →
        dumps_sorted v1 = dumps_sorted v2.
Proof.
  induction v1 as [| | | | items IH | items IH] using value_nested_ind;
    intros v2 Hsame Hdk; inversion Hsame; subst; try reflexivity.
  - (* lists *)
    apply distinct_keys_list in Hdk. cbn [dumps_sorted]. do 3 f_equal.
    match goal with H : Forall2 same_pairs _ _ |- _ => rename H into HF end.
    induction HF as [|x y l l' Hxy HF IHF]; [reflexivity|].
    apply Forall_cons in IH as [IHx IH]. apply Forall_cons in Hdk as [Hx Hdk].
    rewrite !fmap_cons. f_equal; [apply IHx; assumption|].
    apply IHF; [exact IH | constructor; exact HF | exact Hdk].
  - (* dictionaries *)
    apply distinct_keys_dict in Hdk as [Hnd Hdk]. cbn [dumps_sorted].
    do 4 f_equal.
    match goal with
    | Hp : items ≡ₚ ?l, H : Forall2 _ ?l _ |- _ =>
        rename Hp into Hperm; rename H into HF
    end.
    rewrite (sorted_items_perm
               ((λ kv, (kv.1, dumps_sorted kv.2)) <$> items)
               ((λ kv, (kv.1, dumps_sorted kv.2)) <$> l1')).
    + f_equal. rewrite Hperm in IH, Hdk. clear Hperm Hnd Hsame.
      induction HF as [|a b l l' [Hk Hab] HF IHF]; [reflexivity|].
      apply Forall_cons in IH as [IHa IH].
      apply Forall_cons in Hdk as [Ha Hdk].
      rewrite !fmap_cons. f_equal; [|apply IHF; assumption].
      rewrite Hk. f_equal. apply IHa; assumption.
    + rewrite <- list_fmap_compose. exact Hnd.
    + apply fmap_Permutation. exact Hperm.
Qed.

End canonical_form.

(** C4.  Key determinism: for every namespace and every two parameter sets
    that hold the same key-value pairs, inserted in any order, also in the
    dictionaries nested in them, [_generate_key] returns the same key
    *)
Theorem key_determinism (ns : string) (p1 p2 : list (string * value)) :
  Json.distinct_keys (VDict p1) = true →
  Json.same_pairs (VDict p1) (VDict p2) →
  _generate_key ns p1 = _generate_key ns p2.
Proof.
  intros Hdk Hsame. unfold _generate_key.
  rewrite (dumps_sorted_same_pairs _ _ Hsame Hdk). reflexivity.
Qed.

Lemma key_determinism_witness :
  _generate_key "products"
    [("a", VInt 1); ("b", VDict [("x", VNone); ("y", VBool true)])]
  = _generate_key "products"
      [("b", VDict [("y", VBool true); ("x", VNone)]); ("a", VInt 1)].
Proof.
  apply key_determinism; [reflexivity|].
  apply (Json.same_dict _
           [("b", VDict [("x", VNone); ("y", VBool true)]); ("a", VInt 1)]);
    [apply perm_swap|].
  constructor; [split; [reflexivity|] | repeat constructor].
  apply (Json.same_dict _ [("y", VBool true); ("x", VNone)]);
    [apply perm_swap | repeat constructor].
Defined.

(** ** The decorator *)

Section decorator_steps.

Context {M : Type} {backend : CacheBackend M} {W : Type}.

Implicit Types (prefix : string) (expire : Z).
Implicit Types (args : list value) (kwargs : list (string * value)).

(** A hit returns the cached value and runs nothing. *)
Lemma cache_response_hit prefix expire (func : @operation M W) args kwargs
    (t_get t_set : float) (m m1 : M) (w : W) (cached : value) :
  backend_get t_get (wrapper_key prefix args kwargs) m
    = (cached, m1) →
  cached ≠ VNone →
  cache_response prefix expire func args kwargs
    t_get t_set (m, w) = (Returned cached, (m1, w)).
Proof.
  intros Hget Hsome. unfold cache_response. cbn [fst snd].
  fold (wrapper_key prefix args kwargs). rewrite Hget.
  apply is_none_false in Hsome. rewrite Hsome. reflexivity.
Qed.

(** When [get] returns [None], [func] runs on the manager that [get] left,
    and its result is stored, in the manager that [func] left, when it
    returns. *)
Lemma cache_response_miss prefix expire (func : @operation M W) args kwargs
    (t_get t_set : float) (m m1 : M) (w : W) :
  backend_get t_get (wrapper_key prefix args kwargs) m
    = (VNone, m1) →
  cache_response prefix expire func args kwargs
    t_get t_set (m, w) =
    match func args kwargs (m1, w) with
    | (Returned result, (m2, w1)) =>
        (Returned result,
         ((backend_set t_set
             (wrapper_key prefix args kwargs) result
             expire m2).2, w1))
    | (Raised e, st1) => (Raised e, st1)
    end.
Proof.
  intros Hget. unfold cache_response. cbn [fst snd].
  fold (wrapper_key prefix args kwargs). rewrite Hget. cbn [is_none negb].
  destruct (func args kwargs (m1, w)) as [[result | e] [m2 w1]];
    [|reflexivity].
  destruct (backend_set _ _ _ _ _). reflexivity.
Qed.


(** And with the count of its executions. *)
Lemma cache_response_miss_counted prefix expire (func : standalone W)
    args kwargs (t_get t_set : float) (m m1 : M) (n : nat) (w : W) :
  backend_get t_get (wrapper_key prefix args kwargs) m
    = (VNone, m1) →
  cache_response prefix expire (counted (independent func)) args kwargs
    t_get t_set (m, (n, w)) =
    match func args kwargs w with
    | (Returned result, w1) =>
        (Returned result,
         ((backend_set t_set
             (wrapper_key prefix args kwargs) result
             expire m1).2, (S n, w1)))
    | (Raised e, w1) => (Raised e, (m1, (S n, w1)))
    end.
Proof.
  intros Hget. unfold cache_response. cbn [fst snd].
  fold (wrapper_key prefix args kwargs). rewrite Hget. cbn [is_none negb].
  unfold counted, independent. cbn [fst snd].
  destruct (func args kwargs w) as [[result | e] w1]; [|reflexivity].
  destruct (backend_set _ _ _ _ _). reflexivity.
Qed.

End decorator_steps.

(** The Redis manager stores [None] as the JSON text [null]; when the
    service hands it back, [get] returns [None], which the wrapper reads as a
    miss. *)
Lemma redis_get_null {Client Service : Type}
    (redis_get : Client → string → Service → outcome (option string) * Service)
    (json_loads : string → outcome value)
    (self : Redis.CacheManager Client) (r : Client) (srv srv' : Service)
    (key : string) :
  Redis.connected self = true →
  Redis.redis self = Some r →
  redis_get r key srv = (Returned (Some "null"), srv') →
  json_loads "null" = Returned VNone →
  Redis.get Client Service redis_get json_loads key (self, srv)
    = (VNone, (self, srv')).
Proof.
  intros Hc Hr Hget Hloads. unfold Redis.get.
  rewrite Hc, Hr, Hget, Hloads. reflexivity.
Qed.

Section decorator.

Context {W : Type}.

Implicit Types (func : standalone W) (prefix : string) (expire : Z).
Implicit Types (args : list value) (kwargs : list (string * value)).

(** What a call that ran [func] leaves in the in-process store: the result
    that [func] returned, under the key of the call, when the manager is
    connected after the call and the sum of [set] was computed. *)
Lemma call_stores prefix expire
    (func : @operation Simple.SimpleCacheManager W) args kwargs
    (t_get t_set sum : float) (m m1 : Simple.SimpleCacheManager)
    (n : nat) (w w1 : W) (v : value) :
  cache_response prefix expire (counted func) args kwargs t_get t_set
    (m, (n, w)) = (Returned v, (m1, (S n, w1))) →
  Simple.connected m1 = true →
  Float.add_int t_set expire = Returned sum →
  Simple.cache m1 !! wrapper_key prefix args kwargs
    = Some (Simple.CacheEntry v sum t_set).
Proof.
  intros Hfirst Hc1 Hsum.
  set (key := wrapper_key prefix args kwargs) in *.
  destruct (Simple.get t_get key m) as [cached m'] eqn:Hget.
  destruct (is_none cached) eqn:Hhit;
    [apply is_none_true in Hhit as -> | apply is_none_false in Hhit].
  - rewrite (cache_response_miss prefix expire (counted func) args kwargs
               t_get t_set m m') in Hfirst by exact Hget.
    unfold counted in Hfirst. cbn [fst snd] in Hfirst.
    destruct (func args kwargs (m', w)) as [[result | e] [m2 w2]];
      [|discriminate Hfirst].
    cbn [backend_set simple_backend] in Hfirst.
    injection Hfirst as -> Hm1 <-.
    assert (Simple.connected m2 = true) as Hc2
      by (rewrite <- Hc1, <- Hm1; symmetry; apply set_keeps_connected).
    rewrite (set_stored _ _ _ _ _ sum) in Hm1 by assumption.
    cbn [snd] in Hm1. subst m1. apply lookup_insert_eq.
  - rewrite (cache_response_hit prefix expire (counted func) args kwargs
               t_get t_set m m' (n, w) cached) in Hfirst by assumption.
    injection Hfirst as _ _ Hn _. exfalso. exact (n_Sn n Hn).
Qed.

(** C1, as amended.  Memoization round-trip.

    On the in-process manager: when a call of the wrapper runs [func],
    which returns a value other than [None], and stores it (the manager is
    connected after the call and the sum [current_time + expire] of [set]
    was computed), a second call with the same arguments at a clock reading
    within the ttl (up to and including the stored [expires_at]) returns
    the same value without running [func] again, and changes nothing.  This
    holds for every [func], also one that uses the cache manager.

    On the Redis manager a hit does not return the value of the first call
    but what [json.loads] makes of the text that the service returns: when
    the service still holds the text [json.dumps(v, default=str)] of the
    first result [v], the second call returns its decoding, if that is not
    [None], without running [func]. *)
Theorem memoize_roundtrip prefix expire args kwargs
    (t2_get t2_set : float) (n : nat) (w1 : W) (v : value) :
  (∀ (func : @operation Simple.SimpleCacheManager W)
     (t1_get t1_set sum : float) (m m1 : Simple.SimpleCacheManager) (w : W),
     cache_response prefix expire (counted func)
       args kwargs t1_get t1_set (m, (n, w))
       = (Returned v, (m1, (S n, w1))) →
     Simple.connected m1 = true →
     Float.add_int t1_set expire = Returned sum →
     v ≠ VNone →
     Float.gtb t2_get sum = false →
     cache_response prefix expire (counted func)
       args kwargs t2_get t2_set (m1, (S n, w1))
       = (Returned v, (m1, (S n, w1))))
  ∧ (∀ (Client Service : Type)
       (redis_get :
          Client → string → Service → outcome (option string) * Service)
       (redis_setex :
          Client → string → Z → string → Service → outcome unit * Service)
       (json_loads : string → outcome value)
       (json_dumps_default_str : value → outcome string)
       (func : @operation (Redis.state Client Service) W)
       (rself : Redis.CacheManager Client) (r : Client) (srv srv' : Service)
       (c : ascii) (text : string) (v' : value),
       Redis.connected rself = true →
       Redis.redis rself = Some r →
       json_dumps_default_str v = Returned (String c text) →
       redis_get r (wrapper_key prefix args kwargs) srv
         = (Returned (Some (String c text)), srv') →
       json_loads (String c text) = Returned v' →
       v' ≠ VNone →
       cache_response
         (backend := redis_backend redis_get redis_setex json_loads
                       json_dumps_default_str)
         prefix expire (counted func) args kwargs t2_get t2_set
         ((rself, srv), (S n, w1))
       = (Returned v', ((rself, srv'), (S n, w1)))).
Proof.
  split.
  - intros func t1_get t1_set sum m m1 w Hfirst Hc1 Hsum Hv Hwin.
    pose proof (call_stores _ _ _ _ _ _ _ _ _ _ _ _ _ _ Hfirst Hc1 Hsum)
      as Hentry.
    apply cache_response_hit; [|exact Hv].
    cbn [backend_get simple_backend].
    apply (get_live _ _ _ (Simple.CacheEntry v sum t1_set));
      [exact Hc1 | exact Hentry | exact Hwin].
  - intros Client Service redis_get redis_setex json_loads
      json_dumps_default_str func rself r srv srv' c text v'
      Hc Hr _ Hget Hloads Hv'.
    apply (cache_response_hit
             (backend := redis_backend redis_get redis_setex json_loads
                           json_dumps_default_str));
      [|exact Hv'].
    cbn [backend_get redis_backend]. unfold Redis.get.
    rewrite Hc, Hr, Hget, Hloads. reflexivity.
Qed.

Lemma never_hits_get (key : string) (now : float)
    (self : Simple.SimpleCacheManager) :
  Simple.never_hits key self →
  Simple.never_hits key (Simple.get now key self).2.
Proof.
  intros Hnever. unfold Simple.get at 1.
  destruct (Simple.connected self) eqn:Hc; cbn [negb]; [|exact Hnever].
  destruct (Simple.cache self !! key) as [e|] eqn:He; [|exact Hnever].
  destruct (Float.gtb now (Simple.expires_at e)); [|exact Hnever].
  intros t. rewrite get_absent; [reflexivity|]. apply lookup_delete_eq.
Qed.

Lemma never_hits_set_none (key : string) (now : float) expire
    (self : Simple.SimpleCacheManager) :
  Simple.never_hits key self →
  Simple.never_hits key (Simple.set now key VNone expire self).2.
Proof.
  intros Hnever t. unfold Simple.set.
  destruct (Simple.connected self) eqn:Hc; cbn [negb snd]; [|apply Hnever].
  destruct (Float.add_int now expire) as [sum|err]; cbn [snd];
    [|apply Hnever].
  unfold Simple.get. cbn [Simple.connected Simple.cache negb].
  rewrite lookup_insert_eq. cbn [Simple.expires_at Simple.data].
  destruct (Float.gtb t sum); reflexivity.
Qed.

(** A [get] that returned [None] leaves a store that cannot hit. *)
Lemma miss_then_never_hits (key : string) (now : float)
    (self : Simple.SimpleCacheManager) :
  (Simple.get now key self).1 = VNone →
  Simple.never_hits key (Simple.get now key self).2.
Proof.
  unfold Simple.get at 1 2.
  destruct (Simple.connected self) eqn:Hc; cbn [negb].
  - destruct (Simple.cache self !! key) as [e|] eqn:He.
    + destruct (Float.gtb now (Simple.expires_at e)); cbn [fst snd].
      * intros _ t. rewrite get_absent; [reflexivity|].
        apply lookup_delete_eq.
      * intros Hnone t. unfold Simple.get. rewrite Hc, He. cbn [negb].
        destruct (Float.gtb t (Simple.expires_at e));
          [reflexivity | exact Hnone].
    + cbn [fst snd]. intros _ t. rewrite get_absent; [reflexivity | exact He].
  - cbn [fst snd]. intros _ t. unfold Simple.get. rewrite Hc. reflexivity.
Qed.

(** A call on a store that cannot hit runs [func]; when [func] returns
    [None] the store still cannot hit. *)
Lemma call_never_hits prefix expire func args kwargs (t_get t_set : float)
    (m : Simple.SimpleCacheManager) (n : nat) (w : W) :
  Simple.never_hits
    (wrapper_key prefix args kwargs) m →
  (func args kwargs w).1 = Returned VNone →
  ∃ m1 w1,
    cache_response prefix expire (counted (independent func))
      args kwargs t_get t_set (m, (n, w))
      = (Returned VNone, (m1, (S n, w1)))
    ∧ Simple.never_hits
        (wrapper_key prefix args kwargs) m1.
Proof.
  intros Hnever Hnone.
  set (key := wrapper_key prefix args kwargs) in *.
  pose proof (Hnever t_get) as Hget.
  pose proof (never_hits_get key t_get m Hnever) as Hnever'.
  destruct (Simple.get t_get key m) as [cached m'] eqn:Hg.
  cbn [fst snd] in Hget, Hnever'. subst cached.
  rewrite (cache_response_miss_counted prefix expire func args kwargs
             t_get t_set m m') by exact Hg.
  destruct (func args kwargs w) as [r w']. cbn [fst] in Hnone. subst r.
  eexists _, _. split; [reflexivity|].
  apply never_hits_set_none. exact Hnever'.
Qed.

(** C9.  When the wrapped operation returns [None], the wrapper on the
    in-process manager never hits for that argument set: a call that
    returns [None] has run [func], and every later call with the same
    arguments, at any clock reading (also within the ttl), runs [func]
    again: after [k] later calls the count of executions is [k] more, and
    every one of them returned [None]. *)
Theorem none_result_never_hits prefix expire func args kwargs
    (t_get t_set : float) (m m1 : Simple.SimpleCacheManager) (n n1 : nat)
    (w w1 : W) :
  (∀ w', (func args kwargs w').1 = Returned VNone) →
  cache_response prefix expire (counted (independent func))
    args kwargs t_get t_set (m, (n, w))
    = (Returned VNone, (m1, (n1, w1))) →
  n1 = S n
  ∧ ∀ clock : list (float * float),
      let later :=
        repeat_calls
          (cache_response prefix expire
             (counted (independent func)) args kwargs)
          clock (m1, (n1, w1)) in
      later.1 = replicate (length clock) (Returned VNone)
      ∧ later.2.2.1 = n1 + length clock.
Proof.
  intros Hnone Hfirst.
  set (key := wrapper_key prefix args kwargs).
  assert (n1 = S n ∧ Simple.never_hits key m1) as [-> Hnever].
  { pose proof (miss_then_never_hits key t_get m) as Hmiss.
    destruct (Simple.get t_get key m) as [cached m'] eqn:Hget.
    cbn [fst snd] in Hmiss.
    destruct (is_none cached) eqn:Hhit;
      [apply is_none_true in Hhit as -> | apply is_none_false in Hhit].
    - rewrite (cache_response_miss_counted prefix expire func args kwargs
                 t_get t_set m m') in Hfirst by exact Hget.
      pose proof (Hnone w) as Hw.
      destruct (func args kwargs w) as [r w']. cbn [fst] in Hw. subst r.
      injection Hfirst as <- <- _. split; [reflexivity|].
      cbn [backend_set simple_backend].
      apply never_hits_set_none. apply Hmiss. reflexivity.
    - rewrite (cache_response_hit prefix expire
                 (counted (independent func)) args kwargs t_get t_set
                 m m' (n, w) cached)
        in Hfirst by assumption.
      injection Hfirst as ->. contradiction. }
  split; [reflexivity|]. intros clock. cbn zeta. clear Hfirst.
  generalize (S n) as k. revert m1 w1 Hnever.
  induction clock as [|[tg ts] clock IH]; intros m1 w1 Hnever k.
  - cbn. split; [reflexivity | lia].
  - cbn [repeat_calls length replicate].
    destruct (call_never_hits prefix expire func args kwargs tg ts m1 k w1
                Hnever (Hnone w1)) as (m2 & w2 & -> & Hnever2).
    specialize (IH m2 w2 Hnever2 (S k)).
    destruct (repeat_calls _ clock (m2, (S k, w2))) as [rs st].
    cbn [fst snd] in *. destruct IH as [-> ->]. split; [reflexivity | lia].
Qed.

End decorator.

(** An operation that returns [None]: the first call runs it and stores
    [None]; a second call with the same arguments, one second later and well
    within the ttl of 300 seconds, runs it again. *)
Lemma memoize_roundtrip_counterexample :
  (cache_response "ns" 300 (counted (independent returns_none)) [] []
     (Float.rounded 0) (Float.rounded 0)
     (Simple.init, (0, tt))).1 = Returned VNone
  ∧ (cache_response "ns" 300 (counted (independent returns_none)) [] []
       (Float.rounded 0) (Float.rounded 0)
       (Simple.init, (0, tt))).2.2.1 = 1
  ∧ Simple.cache
      (cache_response "ns" 300 (counted (independent returns_none)) [] []
         (Float.rounded 0) (Float.rounded 0)
         (Simple.init, (0, tt))).2.1 !! wrapper_key "ns" [] []
    = Some (Simple.CacheEntry VNone (Float.rounded 300) (Float.rounded 0))
  ∧ Float.gtb (Float.rounded 1) (Float.rounded 300) = false
  ∧ (cache_response "ns" 300 (counted (independent returns_none)) [] []
       (Float.rounded 1) (Float.rounded 1)
       (cache_response "ns" 300 (counted (independent returns_none)) [] []
          (Float.rounded 0) (Float.rounded 0)
          (Simple.init, (0, tt))).2).2.2.1 = 2.
Proof.
  split; [vm_compute; reflexivity|]. split; [vm_compute; reflexivity|].
  split; [vm_compute; reflexivity|]. split; [vm_compute; reflexivity|].
  vm_compute. reflexivity.
Qed.

(** The counting operation of the round-trip scenario: the first call, at
    the clock reading 0, returns 1 and stores it for 300 seconds; the second
    call, at 1, returns the 1 of the first and the counter stays at 1. *)
Lemma memoize_roundtrip_witness :
  cache_response "ns" 300 (counted (independent counting_op)) [] []
    (Float.rounded 0) (Float.rounded 0) (Simple.init, (0, 0%Z))
  = (Returned (VInt 1),
     ((Simple.set (Float.rounded 0) (wrapper_key "ns" [] []) (VInt 1) 300
         Simple.init).2, (1, 1%Z)))
  ∧ cache_response "ns" 300 (counted (independent counting_op)) [] []
      (Float.rounded 1) (Float.rounded 1)
      ((Simple.set (Float.rounded 0) (wrapper_key "ns" [] []) (VInt 1) 300
          Simple.init).2, (1, 1%Z))
    = (Returned (VInt 1),
       ((Simple.set (Float.rounded 0) (wrapper_key "ns" [] []) (VInt 1) 300
           Simple.init).2, (1, 1%Z))).
Proof.
  assert (cache_response "ns" 300 (counted (independent counting_op)) [] []
            (Float.rounded 0) (Float.rounded 0) (Simple.init, (0, 0%Z))
          = (Returned (VInt 1),
             ((Simple.set (Float.rounded 0) (wrapper_key "ns" [] [])
                 (VInt 1) 300 Simple.init).2, (1, 1%Z)))) as Hfirst
    by (vm_compute; reflexivity).
  split; [exact Hfirst|].
  destruct (memoize_roundtrip "ns" 300 [] [] (Float.rounded 1)
              (Float.rounded 1) 0 1%Z (VInt 1)) as [Hsimple _].
  apply (Hsimple (independent counting_op) (Float.rounded 0)
           (Float.rounded 0) (Float.rounded 300) Simple.init _ 0%Z Hfirst).
  - reflexivity.
  - vm_compute. reflexivity.
  - discriminate.
  - vm_compute. reflexivity.
Defined.

Lemma none_result_never_hits_witness :
  (repeat_calls
     (cache_response "ns" 300 (counted (independent returns_none)) [] [])
     [(Float.rounded 1, Float.rounded 1); (Float.rounded 2, Float.rounded 2)]
     ((Simple.set (Float.rounded 0) (wrapper_key "ns" [] []) VNone 300
         Simple.init).2,
      (1, tt))).2.2.1 = 3.
Proof.
  pose proof (none_result_never_hits "ns" 300 returns_none [] []
                (Float.rounded 0) (Float.rounded 0)
                Simple.init
                (Simple.set (Float.rounded 0) (wrapper_key "ns" [] []) VNone
                   300 Simple.init).2
                0 1 tt tt (λ _, eq_refl)) as H.
  destruct H as [_ H]; [vm_compute; reflexivity|].
  exact (proj2 (H [(Float.rounded 1, Float.rounded 1);
                   (Float.rounded 2, Float.rounded 2)])).
Defined.

(** ** Checks of the library models against known results *)

Example md5_empty :
  Hashlib.md5_hexdigest EmptyString = "d41d8cd98f00b204e9800998ecf8427e".
Proof. vm_compute. reflexivity. Qed.

Example md5_abc :
  Hashlib.md5_hexdigest "abc" = "900150983cd24fb0d6963f7d28e17f72".
Proof. vm_compute. reflexivity. Qed.

Example str_empty_tuple : Builtins.str_tuple [] = "()".
Proof. reflexivity. Qed.

Example dumps_sorted_nested :
  Json.dumps_sorted
    (VDict [("kwargs", VDict [("b", VInt (-3)); ("a", VList [VNone])]);
            ("args", VStr "()")])
  = String.concat EmptyString
      ["{"; Json.encode_basestring_ascii "args"; ": ";
       Json.encode_basestring_ascii "()"; ", ";
       Json.encode_basestring_ascii "kwargs"; ": {";
       Json.encode_basestring_ascii "a"; ": [null], ";
       Json.encode_basestring_ascii "b"; ": -3}}"].
Proof. vm_compute. reflexivity. Qed.

Example wrapper_key_no_arguments :
  wrapper_key "products" [] [] = "products:1f7780bdef8db2f85ecc07e251e189cc".
Proof. vm_compute. reflexivity. Qed.

(** * Further properties *)

(** ** The in-process store: how the operations compose *)

Section store_composition.
Import Simple.

Implicit Types (self : SimpleCacheManager) (key pattern : string).
Implicit Types (now : float) (val : value) (expire : Z).

(** What [get] returns depends on the flag and on the entry of the key
    only. *)
Lemma get_result_local now key self self' :
  connected self = connected self' →
  cache self !! key = cache self' !! key →
  (get now key self).1 = (get now key self').1.
Proof.
  intros Hc Hk. unfold get. rewrite Hc, Hk.
  destruct (connected self'); cbn [negb]; [|reflexivity].
  destruct (cache self' !! key) as [e|]; [|reflexivity].
  destruct (Float.gtb now (expires_at e)); reflexivity.
Qed.

Lemma delete_keeps_connected key self :
  connected (delete key self).2 = connected self.
Proof. unfold delete. destruct (connected self) eqn:Hc; cbn; congruence. Qed.

Lemma del_all_subseteq (ks : list string) (c : gmap string cache_entry) :
  del_all ks c ⊆ c.
Proof.
  apply map_subseteq_spec. intros k e. rewrite lookup_del_all.
  destruct (decide (k ∈ ks)); [discriminate | trivial].
Qed.

(** X1.  Overwriting: a second [set] of a key that stores its entry
    replaces the entry of the first, value and expiry: the store is the one
    the second [set] alone would give, and a [get] up to the [expires_at] of
    the second returns its value.  A second [set] whose sum raises returns
    [False] and leaves the entry of the first in place. *)
Theorem set_overwrites self key (v1 v2 : value) (e1 e2 : Z)
    (t1 t2 now : float) :
  connected self = true →
  (∀ sum2 : float,
     Float.add_int t2 e2 = Returned sum2 →
     (set t2 key v2 e2 (set t1 key v1 e1 self).2).2
       = (set t2 key v2 e2 self).2
     ∧ cache (set t2 key v2 e2 (set t1 key v1 e1 self).2).2 !! key
       = Some (CacheEntry v2 sum2 t2)
     ∧ (Float.gtb now sum2 = false →
        (get now key (set t2 key v2 e2 (set t1 key v1 e1 self).2).2).1
          = v2))
  ∧ (∀ err : string,
       Float.add_int t2 e2 = Raised err →
       set t2 key v2 e2 (set t1 key v1 e1 self).2
         = (false, (set t1 key v1 e1 self).2)).
Proof.
  intros Hc. split; [|intros err Herr; exact (set_overflow _ _ _ _ _ _ Herr)].
  intros sum2 Hsum2.
  assert (connected (set t1 key v1 e1 self).2 = true) as Hc1
    by (rewrite set_keeps_connected; exact Hc).
  rewrite !(set_stored t2 _ _ _ _ sum2) by assumption. cbn [snd cache].
  assert (<[key:=CacheEntry v2 sum2 t2]> (cache (set t1 key v1 e1 self).2)
          = <[key:=CacheEntry v2 sum2 t2]> (cache self)) as Hsame.
  { apply map_eq. intros k. destruct (decide (k = key)) as [->|Hk].
    - rewrite !lookup_insert_eq. reflexivity.
    - rewrite !lookup_insert_ne by congruence. apply set_other_key, Hk. }
  split; [rewrite Hsame; reflexivity|].
  split; [apply lookup_insert_eq|]. intros Hwin.
  rewrite (get_live now key _ (CacheEntry v2 sum2 t2));
    [reflexivity | reflexivity | apply lookup_insert_eq | exact Hwin].
Qed.

(** X2.  Keys are independent: a [set], a [get] (with its eviction) or a
    [delete] of one key never changes what a [get] of another key returns,
    at any clock reading. *)
Theorem other_keys_untouched self key (other : string) val expire
    (now later : float) :
  other ≠ key →
  (get later other (set now key val expire self).2).1
    = (get later other self).1
  ∧ (get later other (get now key self).2).1 = (get later other self).1
  ∧ (get later other (delete key self).2).1 = (get later other self).1.
Proof.
  intros Hne. repeat split; apply get_result_local.
  - apply set_keeps_connected.
  - apply set_other_key. exact Hne.
  - apply get_keeps_connected.
  - apply get_other_key. exact Hne.
  - apply delete_keeps_connected.
  - unfold delete. destruct (connected self); cbn; [|reflexivity].
    destruct (decide (is_Some (cache self !! key))); [|reflexivity].
    apply lookup_delete_ne. congruence.
Qed.

(** X3.  Only [set] adds entries: after a [get], a [delete], a
    [clear_pattern], a sweep or a [get_cache_stats], every entry of the store
    was there before with the same content, and the [connected] flag is as
    it was. *)
Theorem store_only_shrinks self key pattern now :
  (cache (get now key self).2 ⊆ cache self
   ∧ connected (get now key self).2 = connected self)
  ∧ (cache (delete key self).2 ⊆ cache self
     ∧ connected (delete key self).2 = connected self)
  ∧ (cache (clear_pattern pattern self).2 ⊆ cache self
     ∧ connected (clear_pattern pattern self).2 = connected self)
  ∧ (cache (_cleanup_expired now self) ⊆ cache self
     ∧ connected (_cleanup_expired now self) = connected self)
  ∧ (cache (get_cache_stats now self).2 ⊆ cache self
     ∧ connected (get_cache_stats now self).2 = connected self).
Proof.
  repeat split.
  - unfold get. destruct (connected self); cbn; [|reflexivity].
    destruct (cache self !! key) as [e|]; [|reflexivity].
    destruct (Float.gtb now (expires_at e)); [|reflexivity].
    apply delete_subseteq.
  - apply get_keeps_connected.
  - unfold delete. destruct (connected self); cbn; [|reflexivity].
    destruct (decide (is_Some (cache self !! key))); [|reflexivity].
    apply delete_subseteq.
  - apply delete_keeps_connected.
  - unfold clear_pattern. destruct (connected self); cbn; [|reflexivity].
    destruct (String.eqb pattern "*"); cbn;
      [apply map_empty_subseteq | apply del_all_subseteq].
  - unfold clear_pattern. destruct (connected self) eqn:Hc; cbn; [|exact Hc].
    destruct (String.eqb pattern "*"); reflexivity.
  - apply del_all_subseteq.
  - unfold get_cache_stats. destruct (connected self); cbn; [|reflexivity].
    apply del_all_subseteq.
  - unfold get_cache_stats. destruct (connected self) eqn:Hc; cbn; exact Hc.
Qed.

(** X4.  Reads do not extend the life of an entry: any number of [get]s of
    a key at clock readings that are not after its [expires_at] return its
    value and leave the store as it was, and the first [get] after
    [expires_at] still returns [None]. *)
Theorem reads_do_not_refresh self key (e : cache_entry)
    (reads : list float) :
  connected self = true →
  cache self !! key = Some e →
  Forall (λ t, Float.gtb t (expires_at e) = false) reads →
  foldl (λ m t, (get t key m).2) self reads = self
  ∧ Forall (λ t, (get t key self).1 = data e) reads
  ∧ ∀ t, Float.gtb t (expires_at e) = true →
         (get t key (foldl (λ m t, (get t key m).2) self reads)).1 = VNone.
Proof.
  intros Hc He Hreads.
  assert (foldl (λ m t, (get t key m).2) self reads = self) as Hsame.
  { induction Hreads as [|t reads Ht _ IH]; [reflexivity|].
    cbn [foldl]. rewrite (get_live t key self e) by assumption. exact IH. }
  split; [exact Hsame|]. split.
  - eapply Forall_impl; [exact Hreads|]. intros t Ht. cbn beta.
    rewrite (get_live t key self e) by assumption. reflexivity.
  - intros t Ht. rewrite Hsame.
    rewrite (get_expired t key self e) by assumption. reflexivity.
Qed.

End store_composition.

(** ** The in-process store: patterns, sweeps and statistics *)

Section store_sweeps.
Import Simple.

Implicit Types (self : SimpleCacheManager) (key pattern : string).
Implicit Types (now : float).

Lemma startswith_empty (key : string) : startswith key EmptyString = true.
Proof. destruct key; reflexivity. Qed.

Lemma startswith_app (prefix rest : string) :
  startswith (prefix +:+ rest) prefix = true.
Proof.
  induction prefix as [|a p IH]; simpl; [apply startswith_empty|].
  rewrite Ascii.eqb_refl. exact IH.
Qed.

Lemma startswith_prepend (a key prefix : string) :
  startswith (a +:+ key) (a +:+ prefix) = startswith key prefix.
Proof.
  induction a as [|c a IH]; simpl; [reflexivity|].
  rewrite Ascii.eqb_refl. exact IH.
Qed.

Lemma replace_star_app (a b : string) :
  replace_star (a +:+ b) = replace_star a +:+ replace_star b.
Proof.
  induction a as [|c a IH]; simpl; [reflexivity|].
  destruct (Ascii.eqb c "*"); rewrite IH; reflexivity.
Qed.

(** The store after [clear_pattern], for every pattern. *)
Lemma clear_pattern_lookup_any self pattern (k : string) :
  connected self = true →
  cache (clear_pattern pattern self).2 !! k =
    if String.eqb pattern "*" || startswith k (replace_star pattern)
    then None else cache self !! k.
Proof.
  intros Hc. destruct (String.eqb pattern "*") eqn:Hp.
  - unfold clear_pattern. rewrite Hc, Hp. cbn. apply lookup_empty.
  - cbn [orb]. apply clear_pattern_lookup; assumption.
Qed.

(** X5.  What a pattern means: on a connected manager [clear_pattern]
    succeeds and removes exactly the entries whose key starts with the
    pattern stripped of its stars (every entry for the pattern ["*"]); a star
    inside a pattern is dropped, not matched against the key. *)
Theorem clear_pattern_semantics self pattern :
  connected self = true →
  (clear_pattern pattern self).1 = true
  ∧ ∀ k, cache (clear_pattern pattern self).2 !! k =
         if String.eqb pattern "*" || startswith k (replace_star pattern)
         then None else cache self !! k.
Proof.
  intros Hc. split; [|intros k; apply clear_pattern_lookup_any; exact Hc].
  unfold clear_pattern. rewrite Hc. cbn.
  destruct (String.eqb pattern "*"); reflexivity.
Qed.

(** X6.  A pattern with no character other than the star, the empty pattern
    included, empties the store: afterwards every [get] returns [None] and
    the key count is 0. *)
Theorem starry_pattern_clears_all self pattern (now : float)
    (key : string) :
  connected self = true →
  replace_star pattern = EmptyString →
  cache (clear_pattern pattern self).2 = ∅
  ∧ (get now key (clear_pattern pattern self).2).1 = VNone
  ∧ keys (get_cache_stats now (clear_pattern pattern self).2).1 = 0.
Proof.
  intros Hc Hp.
  assert (cache (clear_pattern pattern self).2 = ∅) as Hempty.
  { apply map_eq. intros k. rewrite clear_pattern_lookup_any by exact Hc.
    rewrite Hp, startswith_empty, orb_true_r. symmetry. apply lookup_empty. }
  split; [exact Hempty|]. split.
  - rewrite get_absent; [reflexivity|]. rewrite Hempty. apply lookup_empty.
  - unfold get_cache_stats.
    destruct (connected (clear_pattern pattern self).2); [|reflexivity].
    cbn [negb fst keys]. rewrite cleanup_expired_cache. cbn [cache].
    rewrite Hempty, map_filter_empty. apply map_size_empty.
Qed.

Lemma cleanup_expired_lookup now self (k : string) :
  cache (_cleanup_expired now self) !! k =
    match cache self !! k with
    | Some e => if Float.gtb now (expires_at e) then None else Some e
    | None => None
    end.
Proof.
  rewrite cleanup_expired_cache. cbn [cache].
  destruct (cache self !! k) as [e|] eqn:Hk.
  - destruct (Float.gtb now (expires_at e)) eqn:Hgt.
    + apply map_lookup_filter_None. right. intros e' He' Hlive.
      rewrite Hk in He'. injection He' as <-. apply Hlive. exact Hgt.
    + apply map_lookup_filter_Some. split; [exact Hk|].
      cbn. rewrite Hgt. discriminate.
  - apply map_lookup_filter_None. left. exact Hk.
Qed.

(** A sweep does not change what a [get] returns at the clock reading of the
    sweep or later. *)
Lemma cleanup_expired_invisible now self (k : string) (t : float) :
  Float.leb now t = true →
  (get t k (_cleanup_expired now self)).1 = (get t k self).1.
Proof.
  intros Hle. unfold get at 1 2. cbn [connected].
  rewrite cleanup_expired_lookup.
  replace (connected (_cleanup_expired now self)) with (connected self)
    by reflexivity.
  destruct (connected self); cbn [negb]; [|reflexivity].
  destruct (cache self !! k) as [e|]; [|reflexivity].
  destruct (Float.gtb now (expires_at e)) eqn:Hgt;
    [|destruct (Float.gtb t (expires_at e)); reflexivity].
  rewrite (gtb_mono now t _ Hle Hgt). reflexivity.
Qed.

(** X7.  The sweep agrees with lazy eviction: [_cleanup_expired] removes
    exactly the entries that a [get] at the same clock reading would evict
    and keeps the others as they are, so no [get] at that clock reading or
    later can tell whether the sweep took place. *)
Theorem sweep_matches_lazy_eviction self now :
  (∀ k, cache (_cleanup_expired now self) !! k =
        match cache self !! k with
        | Some e => if Float.gtb now (expires_at e) then None else Some e
        | None => None
        end)
  ∧ (∀ k t, Float.leb now t = true →
            (get t k (_cleanup_expired now self)).1 = (get t k self).1).
Proof.
  split; [intros k; apply cleanup_expired_lookup|].
  intros k t Hle. apply cleanup_expired_invisible. exact Hle.
Qed.

(** X8.  Sweeps compose: a sweep after an earlier sweep leaves the store of
    the later sweep alone; in particular a sweep is idempotent. *)
Theorem sweep_after_sweep self (t1 t2 : float) :
  Float.leb t1 t2 = true →
  _cleanup_expired t2 (_cleanup_expired t1 self) = _cleanup_expired t2 self.
Proof.
  intros Hle. rewrite !cleanup_expired_cache. cbn [cache connected].
  f_equal. apply map_filter_filter_l.
  intros k e _ Hlive2 Hgt1. apply Hlive2.
  exact (gtb_mono t1 t2 _ Hle Hgt1).
Qed.

(** X9.  The key count of [get_cache_stats] on a connected manager is the
    number of entries less the expired ones; every entry left in the store is
    live, and no later [get] can tell that the count swept the store.  On a
    disconnected manager the count is 0 and nothing is swept. *)
Theorem stats_count_live self now :
  (connected self = true →
   status (get_cache_stats now self).1 = "connected"
   ∧ keys (get_cache_stats now self).1
     + size (filter (λ kv, Float.gtb now (expires_at kv.2) = true)
               (cache self))
     = size (cache self)
   ∧ (∀ k e, cache (get_cache_stats now self).2 !! k = Some e →
             Float.gtb now (expires_at e) = false)
   ∧ (∀ k t, Float.leb now t = true →
             (get t k (get_cache_stats now self).2).1 = (get t k self).1))
  ∧ (connected self = false →
     get_cache_stats now self
       = ({| status := "disconnected"; keys := 0 |}, self)).
Proof.
  split; intros Hc; unfold get_cache_stats; rewrite Hc; cbn [negb fst snd];
    [|reflexivity].
  split; [reflexivity|]. split; [|split].
  - cbn [keys]. rewrite cleanup_expired_cache. cbn [cache].
    rewrite Nat.add_comm, <- map_size_disj_union
      by apply map_disjoint_filter_complement.
    rewrite map_filter_union_complement. reflexivity.
  - intros k e. rewrite cleanup_expired_lookup.
    destruct (cache self !! k) as [e'|]; [|discriminate].
    destruct (Float.gtb now (expires_at e')) eqn:Hgt; [discriminate|].
    intros [= <-]. exact Hgt.
  - intros k t Hle. apply cleanup_expired_invisible. exact Hle.
Qed.

(** X10.  Both ends of the life cycle discard the store: after [disconnect]
    every [set] fails and every [get] returns [None]; after [connect],
    whatever the manager was before, the manager is connected, no [get]
    returns anything stored earlier, and a [set] whose sum is computed is
    served again: it returns [True] and a [get] up to its [expires_at]
    returns the value. *)
Theorem connect_and_disconnect_discard self now (key : string) (val : value)
    (expire : Z) (later : float) :
  (set now key val expire (disconnect self) = (false, disconnect self)
   ∧ get now key (disconnect self) = (VNone, disconnect self))
  ∧ (connected (connect self) = true
     ∧ get now key (connect self) = (VNone, connect self)
     ∧ get now key (connect (disconnect self))
       = (VNone, connect (disconnect self))
     ∧ (∀ sum : float,
          Float.add_int now expire = Returned sum →
          (set now key val expire (connect self)).1 = true
          ∧ (Float.gtb later sum = false →
             (get later key (set now key val expire (connect self)).2).1
               = val))).
Proof.
  split; [split; reflexivity|].
  split; [reflexivity|]. split; [apply get_absent, lookup_empty|].
  split; [apply get_absent, lookup_empty|]. intros sum Hsum.
  rewrite (set_stored _ _ _ _ _ sum) by (reflexivity || exact Hsum).
  cbn [fst snd]. split; [reflexivity|]. intros Hwin.
  rewrite (get_live later key _ (CacheEntry val sum now));
    [reflexivity | reflexivity | apply lookup_insert_eq | exact Hwin].
Qed.

End store_sweeps.

(** ** Invalidation and the callers of the store *)

Section invalidation.
Import Simple.

Implicit Types (self : SimpleCacheManager) (key : string).

Lemma clear_pattern_disconnected self (pattern : string) :
  connected self = false → clear_pattern pattern self = (false, self).
Proof. intros Hc. unfold clear_pattern. rewrite Hc. reflexivity. Qed.

Lemma clear_pattern_keeps_connected self (pattern : string) :
  connected (clear_pattern pattern self).2 = connected self.
Proof.
  unfold clear_pattern. destruct (connected self) eqn:Hc; cbn; [|exact Hc].
  destruct (String.eqb pattern "*"); reflexivity.
Qed.

Lemma invalidate_product_cache_connected self :
  connected self = true →
  connected (invalidate_product_cache self) = true
  ∧ ∀ k, cache (invalidate_product_cache self) !! k =
         if startswith k "products:" || startswith k "product:"
         then None else cache self !! k.
Proof.
  intros Hc. unfold invalidate_product_cache.
  destruct (clear_pattern "products:*" self) as [r1 m1] eqn:H1.
  destruct (clear_pattern "product:*" m1) as [r2 m2] eqn:H2.
  assert (m1 = (clear_pattern "products:*" self).2) as Hm1
    by (rewrite H1; reflexivity).
  assert (m2 = (clear_pattern "product:*" m1).2) as Hm2
    by (rewrite H2; reflexivity).
  assert (connected m1 = true) as Hc1
    by (rewrite Hm1, clear_pattern_keeps_connected; exact Hc).
  split; [rewrite Hm2, clear_pattern_keeps_connected; exact Hc1|].
  intros k. rewrite Hm2, clear_pattern_lookup by (exact Hc1 || reflexivity).
  rewrite Hm1, clear_pattern_lookup by (exact Hc || reflexivity).
  change (replace_star "product:*") with "product:".
  change (replace_star "products:*") with "products:".
  destruct (startswith k "product:"), (startswith k "products:");
    reflexivity.
Qed.

(** X11.  [invalidate_product_cache] on a connected manager removes exactly
    the entries whose key starts with ["products:"] or with ["product:"] and
    leaves every other entry as it is; on a disconnected manager it does
    nothing, silently. *)
Theorem invalidate_product_cache_scope self :
  (connected self = true →
   connected (invalidate_product_cache self) = true
   ∧ ∀ k, cache (invalidate_product_cache self) !! k =
          if startswith k "products:" || startswith k "product:"
          then None else cache self !! k)
  ∧ (connected self = false → invalidate_product_cache self = self).
Proof.
  split; [apply invalidate_product_cache_connected|].
  intros Hc. unfold invalidate_product_cache.
  rewrite (clear_pattern_disconnected self) by exact Hc.
  rewrite (clear_pattern_disconnected self) by exact Hc. reflexivity.
Qed.

Lemma contains_cons (c c' : ascii) (s : string) :
  Builtins.contains c (String c' s)
  = Ascii.eqb c c' || Builtins.contains c s.
Proof. reflexivity. Qed.

Lemma startswith_cons (k p : ascii) (key prefix : string) :
  startswith (String k key) (String p prefix)
  = if Ascii.eqb p k then startswith key prefix else false.
Proof. reflexivity. Qed.

Lemma append_cons (c : ascii) (s t : string) :
  String c s +:+ t = String c (s +:+ t).
Proof. reflexivity. Qed.

(** Ids without a colon: the keys of one user do not start with the prefix
    of another. *)
Lemma user_prefix_distinct (user_id other rest : string) :
  Builtins.contains ":" user_id = false →
  Builtins.contains ":" other = false →
  startswith (other +:+ ":" +:+ rest) (user_id +:+ ":") = true →
  other = user_id.
Proof.
  revert other. induction user_id as [|a u IH]; intros other Hu Ho Hs.
  - destruct other as [|c o]; [reflexivity|]. exfalso.
    rewrite contains_cons in Ho. apply orb_false_iff in Ho as [Hc _].
    change (EmptyString +:+ ":") with (String ":" EmptyString) in Hs.
    rewrite (append_cons c o), startswith_cons, Hc in Hs. discriminate Hs.
  - rewrite contains_cons in Hu. apply orb_false_iff in Hu as [Ha Hu].
    rewrite (append_cons a u) in Hs. destruct other as [|c o].
    + change (EmptyString +:+ ":" +:+ rest) with (String ":" rest) in Hs.
      rewrite startswith_cons, Ascii.eqb_sym, Ha in Hs. discriminate Hs.
    + rewrite (append_cons c o), startswith_cons in Hs.
      destruct (Ascii.eqb a c) eqn:Hac; [|discriminate Hs].
      apply Ascii.eqb_eq in Hac as ->.
      rewrite contains_cons in Ho. apply orb_false_iff in Ho as [_ Ho].
      f_equal. apply IH; assumption.
Qed.

(** X12.  [invalidate_user_cache(user_id)], for an id without a star, removes
    exactly the entries whose key starts with ["user:<id>:"]; the entries of
    another user are untouched, also when one id is the beginning of the
    other, as long as ids have no colon. *)
Theorem invalidate_user_cache_scope self (user_id : string) :
  connected self = true →
  has_star user_id = false →
  (∀ k, cache (invalidate_user_cache user_id self) !! k =
        if startswith k ("user:" +:+ user_id +:+ ":")
        then None else cache self !! k)
  ∧ (∀ other rest,
       Builtins.contains ":" user_id = false →
       Builtins.contains ":" other = false →
       other ≠ user_id →
       cache (invalidate_user_cache user_id self)
         !! ("user:" +:+ other +:+ ":" +:+ rest)
       = cache self !! ("user:" +:+ other +:+ ":" +:+ rest)).
Proof.
  intros Hc Hstar.
  assert (∀ k, cache (invalidate_user_cache user_id self) !! k =
               if startswith k ("user:" +:+ user_id +:+ ":")
               then None else cache self !! k) as Hlook.
  { intros k. unfold invalidate_user_cache.
    rewrite clear_pattern_lookup by (exact Hc || reflexivity).
    rewrite (replace_star_app "user:"), (replace_star_app user_id).
    rewrite (replace_star_no_star user_id) by exact Hstar. reflexivity. }
  split; [exact Hlook|]. intros other rest Hu Ho Hne. rewrite Hlook.
  rewrite (startswith_prepend "user:").
  destruct (startswith (other +:+ ":" +:+ rest) (user_id +:+ ":")) eqn:Hs;
    [|reflexivity].
  exfalso. apply Hne. eapply user_prefix_distinct; eassumption.
Qed.

(** X13.  The endpoint [test_cache] on a connected manager answers with the
    payload it has just written, provided the read is not after the
    [expires_at] of the entry, the float sum of the clock reading of the
    [set] and the 60 seconds of its ttl, and then counts at least one key if
    the count is taken in time too; on a disconnected manager it answers
    [None] and the status ["disconnected"]; without the cache module it
    reports an error and touches nothing. *)
Theorem test_cache_reply_cases (m : SimpleCacheManager)
    (cache_manager : option SimpleCacheManager)
    (t_set t_get t_stats : float) :
  (connected m = true →
   Float.gtb t_get (Float.add t_set (Float.rounded 60)) = false →
   ∃ stats,
     (Server.test_cache true t_set t_get t_stats (Some m)).1
       = Server.CacheTest (VDict [("test", VStr "data")]) stats
     ∧ status stats = "connected"
     ∧ (Float.gtb t_stats (Float.add t_set (Float.rounded 60)) = false →
        (1 ≤ keys stats)%nat))
  ∧ (connected m = false →
     Server.test_cache true t_set t_get t_stats (Some m)
       = (Server.CacheTest VNone {| status := "disconnected"; keys := 0 |},
          Some m))
  ∧ Server.test_cache false t_set t_get t_stats cache_manager
    = (Server.CacheError "Cache not available", cache_manager).
Proof.
  split; [|split; [|reflexivity]].
  - intros Hc Hget. unfold Server.test_cache.
    rewrite set_rounded by (exact Hc || reflexivity).
    set (e := CacheEntry (VDict [("test", VStr "data")])
                (Float.add t_set (Float.rounded 60)) t_set).
    set (m1 := {| cache := <["test_key" := e]> (cache m);
                  connected := true |}).
    rewrite (get_live t_get "test_key" m1 e);
      [| reflexivity | apply lookup_insert_eq | exact Hget].
    cbn [data e]. unfold get_cache_stats. cbn [connected m1 negb fst].
    eexists. split; [reflexivity|]. split; [reflexivity|].
    intros Hstats. cbn [keys].
    assert (size (cache (_cleanup_expired t_stats m1)) ≠ 0) as Hsize.
    { apply (map_size_ne_0_lookup_2 _ "test_key").
      rewrite cleanup_expired_lookup. cbn [m1 cache].
      rewrite lookup_insert_eq. cbn [expires_at e].
      rewrite Hstats. eexists; reflexivity. }
    lia.
  - intros Hc. unfold Server.test_cache, set, get, get_cache_stats.
    rewrite Hc. cbn. rewrite Hc. cbn. rewrite Hc. reflexivity.
Qed.

End invalidation.

(** ** The shape of a key *)

Section key_shape.

Lemma string_length_app (s t : string) :
  String.length (s +:+ t) = String.length s + String.length t.
Proof. induction s as [|c s IH]; simpl; [reflexivity | rewrite IH; reflexivity]. Qed.

Lemma string_app_inj_length (s1 s2 t1 t2 : string) :
  String.length s1 = String.length s2 →
  s1 +:+ t1 = s2 +:+ t2 → s1 = s2 ∧ t1 = t2.
Proof.
  revert s2. induction s1 as [|c s1 IH]; intros [|c' s2] Hlen Heq;
    try discriminate Hlen.
  - split; [reflexivity | exact Heq].
  - simpl in Heq. injection Heq as -> Heq. injection Hlen as Hlen.
    destruct (IH s2 Hlen Heq) as [-> ->]. split; reflexivity.
Qed.

Lemma hex_word_length (w : Z) : String.length (Hashlib.hex_word w) = 8.
Proof. reflexivity. Qed.

(** The digest has 32 characters. *)
Lemma md5_hexdigest_length (data : string) :
  String.length (Hashlib.md5_hexdigest data) = 32.
Proof.
  unfold Hashlib.md5_hexdigest, Hashlib.md5.
  destruct (foldl Hashlib.compress _ _) as [[[a b] c] d].
  rewrite !string_length_app, !hex_word_length. reflexivity.
Qed.

Lemma generate_key_startswith (prefix : string)
    (kwargs : list (string * value)) :
  Simple.startswith (_generate_key prefix kwargs) (prefix +:+ ":") = true.
Proof.
  unfold _generate_key. cbn zeta.
  generalize (Hashlib.md5_hexdigest (Json.dumps_sorted (VDict kwargs))).
  intros h. rewrite startswith_prepend. apply (startswith_app ":" h).
Qed.

Lemma generate_key_separation (p1 p2 : string)
    (k1 k2 : list (string * value)) :
  _generate_key p1 k1 = _generate_key p2 k2 → p1 = p2.
Proof.
  intros Heq. unfold _generate_key in Heq. cbn zeta in Heq.
  pose proof (f_equal String.length Heq) as Hlen.
  rewrite !string_length_app, !md5_hexdigest_length in Hlen.
  apply (string_app_inj_length p1 p2) in Heq as [Hp _]; [exact Hp | lia].
Qed.

(** X14.  A key is the namespace, a colon and the 32 characters of the
    digest, so it starts with ["<namespace>:"], and two different namespaces
    never give the same key, whatever the parameters. *)
Theorem key_shape_and_separation (p1 p2 : string)
    (k1 k2 : list (string * value)) :
  (∃ digest, _generate_key p1 k1 = p1 +:+ ":" +:+ digest
             ∧ String.length digest = 32)
  ∧ Simple.startswith (_generate_key p1 k1) (p1 +:+ ":") = true
  ∧ (p1 ≠ p2 → _generate_key p1 k1 ≠ _generate_key p2 k2).
Proof.
  split; [|split; [apply generate_key_startswith|]].
  - eexists. split; [reflexivity | apply md5_hexdigest_length].
  - intros Hne Heq. apply Hne. eapply generate_key_separation. exact Heq.
Qed.

End key_shape.

(** ** The decorator: misses, failures and invalidation *)

Section decorator_composition.

Context {W : Type}.

Implicit Types (func : standalone W) (prefix : string) (expire : Z).
Implicit Types (args : list value) (kwargs : list (string * value)).

(** On a store that cannot hit, a call runs [func] and returns its
    outcome. *)
Lemma call_runs_when_never_hits prefix expire func args kwargs
    (t_get t_set : float) (m : Simple.SimpleCacheManager) (n : nat) (w : W) :
  Simple.never_hits (wrapper_key prefix args kwargs) m →
  (cache_response prefix expire (counted (independent func)) args kwargs
     t_get t_set (m, (n, w))).1 = (func args kwargs w).1
  ∧ (cache_response prefix expire (counted (independent func)) args kwargs
       t_get t_set (m, (n, w))).2.2 = (S n, (func args kwargs w).2).
Proof.
  intros Hnever. pose proof (Hnever t_get) as Hget.
  destruct (Simple.get t_get (wrapper_key prefix args kwargs) m)
    as [cached m'] eqn:Hg.
  cbn [fst] in Hget. subst cached.
  rewrite (cache_response_miss_counted prefix expire func args kwargs
             t_get t_set m m') by exact Hg.
  destruct (func args kwargs w) as [[r | e] w']; split; reflexivity.
Qed.

(** What a call that ran [func] and returned leaves in a connected store:
    the manager is still connected, and the result is stored when the sum
    of [set] was computed. *)
Lemma first_call_stores prefix expire func args kwargs
    (t_get t_set : float)
    (m m1 : Simple.SimpleCacheManager) (n : nat) (w w1 : W) (v : value) :
  Simple.connected m = true →
  cache_response prefix expire (counted (independent func)) args kwargs
    t_get t_set (m, (n, w)) = (Returned v, (m1, (S n, w1))) →
  Simple.connected m1 = true
  ∧ ∀ sum : float,
      Float.add_int t_set expire = Returned sum →
      Simple.cache m1 !! wrapper_key prefix args kwargs
        = Some (Simple.CacheEntry v sum t_set).
Proof.
  intros Hc Hfirst.
  assert (Simple.connected m1 = true) as Hc1.
  { set (key := wrapper_key prefix args kwargs) in *.
    destruct (Simple.get t_get key m) as [cached m'] eqn:Hget.
    assert (Simple.connected m' = true) as Hc'.
    { change m' with (cached, m').2. rewrite <- Hget.
      rewrite get_keeps_connected. exact Hc. }
    destruct (is_none cached) eqn:Hhit;
      [apply is_none_true in Hhit as -> | apply is_none_false in Hhit].
    - rewrite (cache_response_miss_counted prefix expire func args kwargs
                 t_get t_set m m') in Hfirst by exact Hget.
      destruct (func args kwargs w) as [[result | e] w'];
        [|discriminate Hfirst].
      cbn [backend_set simple_backend] in Hfirst.
      injection Hfirst as _ <- _.
      rewrite set_keeps_connected. exact Hc'.
    - rewrite (cache_response_hit prefix expire
                 (counted (independent func)) args kwargs
                 t_get t_set m m' (n, w) cached) in Hfirst by assumption.
      injection Hfirst as _ _ Hn _. exfalso. exact (n_Sn n Hn). }
  split; [exact Hc1|]. intros sum Hsum.
  exact (call_stores _ _ _ _ _ _ _ _ _ _ _ _ _ _ Hfirst Hc1 Hsum).
Qed.


(** X16.  An exception is not cached: when the store misses and [func]
    raises, the wrapper raises the same exception and stores nothing, so
    every later call with the same arguments runs [func] again. *)
Theorem exception_is_not_cached prefix expire func args kwargs
    (t_get t_set : float) (m : Simple.SimpleCacheManager) (n : nat)
    (w w' : W) (e : string) :
  (Simple.get t_get (wrapper_key prefix args kwargs) m).1 = VNone →
  func args kwargs w = (Raised e, w') →
  cache_response prefix expire (counted (independent func)) args kwargs
    t_get t_set (m, (n, w))
    = (Raised e,
       ((Simple.get t_get (wrapper_key prefix args kwargs) m).2, (S n, w')))
  ∧ ∀ (t2_get t2_set : float) (n2 : nat) (w2 : W),
      (cache_response prefix expire (counted (independent func))
         args kwargs t2_get t2_set
         ((Simple.get t_get (wrapper_key prefix args kwargs) m).2,
          (n2, w2))).2.2.1 = S n2.
Proof.
  intros Hmiss Hraise.
  pose proof (miss_then_never_hits _ _ _ Hmiss) as Hnever.
  destruct (Simple.get t_get (wrapper_key prefix args kwargs) m)
    as [cached m'] eqn:Hget.
  cbn [fst snd] in *. subst cached. split.
  - rewrite (cache_response_miss_counted prefix expire func args kwargs
               t_get t_set m m') by exact Hget.
    rewrite Hraise. reflexivity.
  - intros t2_get t2_set n2 w2.
    destruct (call_runs_when_never_hits prefix expire func args kwargs
                t2_get t2_set m' n2 w2 Hnever) as [_ ->].
    reflexivity.
Qed.

(** X17.  After the ttl the value is computed afresh: when a call has
    stored a result and the next call reads a clock that is after the
    stored [expires_at], the wrapper runs [func] again and returns its new
    outcome; a new result that is stored replaces the old entry and is
    served up to an [expires_at] of its own. *)
Theorem expired_entry_is_recomputed prefix expire func args kwargs
    (t1_get t1_set t2_get t2_set sum : float)
    (m m1 : Simple.SimpleCacheManager) (n : nat) (w w1 : W) (v : value) :
  Simple.connected m = true →
  cache_response prefix expire (counted (independent func)) args kwargs
    t1_get t1_set (m, (n, w)) = (Returned v, (m1, (S n, w1))) →
  Float.add_int t1_set expire = Returned sum →
  Float.gtb t2_get sum = true →
  (cache_response prefix expire (counted (independent func)) args kwargs
     t2_get t2_set (m1, (S n, w1))).1 = (func args kwargs w1).1
  ∧ (cache_response prefix expire (counted (independent func)) args kwargs
       t2_get t2_set (m1, (S n, w1))).2.2
    = (S (S n), (func args kwargs w1).2)
  ∧ ∀ (v2 : value) (t sum2 : float),
      (func args kwargs w1).1 = Returned v2 →
      Float.add_int t2_set expire = Returned sum2 →
      Float.gtb t sum2 = false →
      (Simple.get t (wrapper_key prefix args kwargs)
         (cache_response prefix expire (counted (independent func))
            args kwargs t2_get t2_set (m1, (S n, w1))).2.1).1 = v2.
Proof.
  intros Hc Hfirst Hsum Hlate.
  destruct (first_call_stores _ _ _ _ _ _ _ _ _ _ _ _ _ Hc Hfirst)
    as [Hc1 Hentry].
  specialize (Hentry sum Hsum).
  set (key := wrapper_key prefix args kwargs) in *.
  pose proof (get_expired t2_get key m1 _ Hc1 Hentry Hlate) as Hget.
  rewrite (cache_response_miss_counted prefix expire func args kwargs
             t2_get t2_set m1
             {| Simple.cache := base.delete key (Simple.cache m1);
                Simple.connected := true |} (S n) w1) by exact Hget.
  destruct (func args kwargs w1) as [[r | e] w2]; cbn [fst snd];
    (split; [reflexivity|]); (split; [reflexivity|]);
    intros v2 t sum2 Hv2 Hsum2 Hwin; [|discriminate Hv2].
  injection Hv2 as ->. cbn [backend_set simple_backend].
  rewrite (set_stored _ _ _ _ _ sum2) by (reflexivity || exact Hsum2).
  cbn [snd].
  rewrite (get_live t key _ (Simple.CacheEntry v2 sum2 t2_set));
    [reflexivity | reflexivity | apply lookup_insert_eq | exact Hwin].
Qed.

Lemma wrapper_key_same_pairs prefix args kwargs
    (kwargs' : list (string * value)) :
  Json.distinct_keys (VDict kwargs) = true →
  Json.same_pairs (VDict kwargs) (VDict kwargs') →
  wrapper_key prefix args kwargs = wrapper_key prefix args kwargs'.
Proof.
  intros Hdk Hsame. unfold wrapper_key, _generate_key. cbn zeta.
  do 3 f_equal. apply dumps_sorted_same_pairs.
  - apply (Json.same_dict _
             [("args", VStr (Builtins.str_tuple args));
              ("kwargs", VDict kwargs)]); [reflexivity|].
    constructor; [split; [reflexivity | constructor]|].
    constructor; [split; [reflexivity | exact Hsame] | constructor].
  - change (Json.distinct_keys (VDict kwargs) && true = true).
    rewrite Hdk. reflexivity.
Qed.

(** X18.  The order of the keyword arguments does not matter: a call whose
    keyword arguments are those of an earlier call in another order (also
    inside nested dictionaries) has the same key, and it gets the value
    other than [None] that the earlier call stored, up to the stored
    [expires_at], without running [func]. *)
Theorem keyword_order_does_not_matter prefix expire func args kwargs
    (kwargs' : list (string * value))
    (t1_get t1_set t2_get t2_set sum : float)
    (m m1 : Simple.SimpleCacheManager) (n : nat) (w w1 : W) (v : value) :
  Json.distinct_keys (VDict kwargs) = true →
  Json.same_pairs (VDict kwargs) (VDict kwargs') →
  wrapper_key prefix args kwargs' = wrapper_key prefix args kwargs
  ∧ (Simple.connected m = true →
     cache_response prefix expire (counted (independent func)) args kwargs
       t1_get t1_set (m, (n, w)) = (Returned v, (m1, (S n, w1))) →
     Float.add_int t1_set expire = Returned sum →
     v ≠ VNone →
     Float.gtb t2_get sum = false →
     cache_response prefix expire (counted (independent func)) args kwargs'
       t2_get t2_set (m1, (S n, w1)) = (Returned v, (m1, (S n, w1)))).
Proof.
  intros Hdk Hsame.
  pose proof (wrapper_key_same_pairs prefix args kwargs kwargs' Hdk Hsame)
    as Hkey.
  split; [symmetry; exact Hkey|]. intros Hc Hfirst Hsum Hv Hwin.
  destruct (first_call_stores _ _ _ _ _ _ _ _ _ _ _ _ _ Hc Hfirst)
    as [Hc1 Hentry].
  apply cache_response_hit; [|exact Hv].
  cbn [backend_get simple_backend]. rewrite <- Hkey.
  apply (get_live _ _ _ (Simple.CacheEntry v sum t1_set));
    [exact Hc1 | exact (Hentry sum Hsum) | exact Hwin].
Qed.

Lemma namespace_pattern (prefix : string) :
  Simple.has_star prefix = false →
  String.eqb (prefix +:+ ":*") "*" = false
  ∧ Simple.replace_star (prefix +:+ ":*") = prefix +:+ ":".
Proof.
  intros Hp. split.
  - apply String.eqb_neq. intros Heq.
    pose proof (f_equal String.length Heq) as Hlen.
    rewrite string_length_app in Hlen. cbn in Hlen. lia.
  - rewrite replace_star_app, (replace_star_no_star prefix) by exact Hp.
    reflexivity.
Qed.

(** X19.  Invalidation reaches the decorator: once a call has stored a
    result, clearing the pattern ["<namespace>:*"] (the namespace has no
    star) makes the next call with the same arguments run [func] again, at
    any clock reading; so does [invalidate_product_cache] for the namespaces
    ["products"] and ["product"]. *)
Theorem invalidation_forces_recomputation prefix expire func args kwargs
    (t1_get t1_set t2_get t2_set : float)
    (m m1 : Simple.SimpleCacheManager) (n : nat) (w w1 : W) (v : value) :
  Simple.connected m = true →
  Simple.has_star prefix = false →
  cache_response prefix expire (counted (independent func)) args kwargs
    t1_get t1_set (m, (n, w)) = (Returned v, (m1, (S n, w1))) →
  (cache_response prefix expire (counted (independent func)) args kwargs
     t2_get t2_set
     ((Simple.clear_pattern (prefix +:+ ":*") m1).2, (S n, w1))).2.2
    = (S (S n), (func args kwargs w1).2)
  ∧ (prefix = "products" ∨ prefix = "product" →
     (cache_response prefix expire (counted (independent func)) args kwargs
        t2_get t2_set
        (Simple.invalidate_product_cache m1, (S n, w1))).2.2
       = (S (S n), (func args kwargs w1).2)).
Proof.
  intros Hc Hp Hfirst.
  destruct (first_call_stores _ _ _ _ _ _ _ _ _ _ _ _ _ Hc Hfirst)
    as [Hc1 _].
  destruct (namespace_pattern prefix Hp) as [Hne Hrep].
  split; [|intros Hprod];
    apply call_runs_when_never_hits; intros t;
    (rewrite get_absent; [reflexivity|]).
  - rewrite clear_pattern_lookup by assumption.
    rewrite Hrep. unfold wrapper_key. rewrite generate_key_startswith.
    reflexivity.
  - destruct (invalidate_product_cache_connected m1 Hc1) as [_ Hlook].
    rewrite Hlook. unfold wrapper_key.
    destruct Hprod as [-> | ->].
    + rewrite (generate_key_startswith "products"). reflexivity.
    + rewrite (generate_key_startswith "product"), orb_true_r. reflexivity.
Qed.

(** X24.  What a call of the wrapper changes in the in-process store, for
    every [func], also one that uses the cache manager: the wrapper itself
    touches its own key only.  With [read] the manager as the wrapper's [get]
    leaves it and [ran] the manager as the run of [func] on it leaves it
    (on a hit [func] does not run), the entry of a key other than the
    wrapper's is after the call what it was before, when the run of [func]
    leaves that entry alone, and so is the [connected] flag, when the run
    of [func] leaves the flag alone.  In particular a call in one namespace
    changes what is cached under a key of another namespace only through
    what [func] does. *)
Theorem wrapper_touches_only_its_key prefix expire
    (func : @operation Simple.SimpleCacheManager W) args kwargs
    (t_get t_set : float) (m : Simple.SimpleCacheManager) (w : W) :
  let read := (Simple.get t_get (wrapper_key prefix args kwargs) m).2 in
  let ran := (func args kwargs (read, w)).2.1 in
  let after :=
    (cache_response prefix expire func args kwargs t_get t_set (m, w)).2.1 in
  (Simple.connected ran = Simple.connected read →
   Simple.connected after = Simple.connected m)
  ∧ (∀ k, k ≠ wrapper_key prefix args kwargs →
          Simple.cache ran !! k = Simple.cache read !! k →
          Simple.cache after !! k = Simple.cache m !! k)
  ∧ (∀ prefix' args' kwargs',
       prefix' ≠ prefix →
       Simple.cache ran !! wrapper_key prefix' args' kwargs'
       = Simple.cache read !! wrapper_key prefix' args' kwargs' →
       Simple.cache after !! wrapper_key prefix' args' kwargs'
       = Simple.cache m !! wrapper_key prefix' args' kwargs').
Proof.
  cbn zeta.
  set (key := wrapper_key prefix args kwargs).
  assert ((Simple.connected (func args kwargs
                               ((Simple.get t_get key m).2, w)).2.1
           = Simple.connected (Simple.get t_get key m).2 →
           Simple.connected
             (cache_response prefix expire func args kwargs t_get t_set
                (m, w)).2.1 = Simple.connected m)
          ∧ ∀ k, k ≠ key →
                 Simple.cache (func args kwargs
                                 ((Simple.get t_get key m).2, w)).2.1 !! k
                 = Simple.cache (Simple.get t_get key m).2 !! k →
                 Simple.cache
                   (cache_response prefix expire func args kwargs
                      t_get t_set (m, w)).2.1 !! k
                 = Simple.cache m !! k) as [Hconn Hframe].
  { pose proof (get_keeps_connected t_get key m) as Hc'.
    pose proof (λ k, get_other_key t_get key m k) as Hk'.
    destruct (Simple.get t_get key m) as [cached m'] eqn:Hg.
    cbn [snd] in Hc', Hk' |- *.
    destruct (is_none cached) eqn:Hhit;
      [apply is_none_true in Hhit as -> | apply is_none_false in Hhit].
    - rewrite (cache_response_miss prefix expire func args kwargs
                 t_get t_set m m' w) by exact Hg.
      destruct (func args kwargs (m', w)) as [[r | e] [m2 w2]];
        cbn [fst snd backend_set simple_backend].
      + split.
        * intros Hran. rewrite set_keeps_connected, Hran. exact Hc'.
        * intros k Hk Hran.
          rewrite set_other_key, Hran by exact Hk. apply Hk'. exact Hk.
      + split.
        * intros Hran. rewrite Hran. exact Hc'.
        * intros k Hk Hran. rewrite Hran. apply Hk'. exact Hk.
    - rewrite (cache_response_hit prefix expire func args kwargs
                 t_get t_set m m' w cached) by assumption.
      cbn [fst snd]. split; [intros _; exact Hc'|].
      intros k Hk _. apply Hk'. exact Hk. }
  split; [exact Hconn|]. split; [exact Hframe|].
  intros prefix' args' kwargs' Hne. apply Hframe.
  unfold key, wrapper_key. intros Heq. apply Hne.
  eapply generate_key_separation. exact Heq.
Qed.

End decorator_composition.

(** A wrapped function that uses the cache manager does write other keys:
    a decorated function of the namespace [outer] that awaits a decorated
    function of the namespace [inner] leaves an entry under the key of
    [inner], which was not there before. *)
Example nested_call_writes_other_namespace :
  Simple.cache Simple.init !! wrapper_key "inner" [] [] = None
  ∧ Simple.cache
      (cache_response "outer" 300
         (nested "inner" 300 (independent counting_op)
            (Float.rounded 0) (Float.rounded 0))
         [] [] (Float.rounded 0) (Float.rounded 0)
         (Simple.init, 0%Z)).2.1 !! wrapper_key "inner" [] []
    = Some (Simple.CacheEntry (VInt 1) (Float.rounded 300)
              (Float.rounded 0))
  ∧ Simple.cache
      (cache_response "outer" 300
         (nested "inner" 300 (independent counting_op)
            (Float.rounded 0) (Float.rounded 0))
         [] [] (Float.rounded 0) (Float.rounded 0)
         (Simple.init, 0%Z)).2.1 !! wrapper_key "outer" [] []
    = Some (Simple.CacheEntry (VInt 1) (Float.rounded 300)
              (Float.rounded 0)).
Proof. repeat split; vm_compute; reflexivity. Qed.

(** ** The Redis manager *)

Section redis_manager.

Context {Client Service : Type}.
Variable redis_get :
  Client → string → Service → outcome (option string) * Service.
Variable redis_setex :
  Client → string → Z → string → Service → outcome unit * Service.
Variable redis_delete :
  Client → list string → Service → outcome unit * Service.
Variable redis_keys :
  Client → string → Service → outcome (list string) * Service.
Variable redis_from_url : string → outcome Client.
Variable redis_ping : Client → Service → outcome unit * Service.
Variable redis_close : Client → Service → outcome unit * Service.
Variable json_loads : string → outcome value.
Variable json_dumps_default_str : value → outcome string.

Implicit Types (st : Redis.state Client Service) (key pattern : string).
Implicit Types (val : value) (expire : Z).

(** A manager whose flag is off answers without a command to the service. *)
Lemma redis_disabled_degrades st key val expire :
  Redis.connected st.1 = false →
  Redis.get Client Service redis_get json_loads key st = (VNone, st)
  ∧ Redis.set Client Service redis_setex json_dumps_default_str
      key val expire st = (false, st).
Proof.
  destruct st as [self srv]. cbn [fst]. intros Hc.
  unfold Redis.get, Redis.set. rewrite Hc. split; reflexivity.
Qed.


(** X20.  No operation of the Redis manager changes the manager: whatever the
    service replies or raises, [get], [set], [delete] and [clear_pattern]
    leave the client and the [connected] flag as they were; a failing
    command does not switch the manager off. *)
Theorem redis_operations_keep_manager st key pattern val expire :
  (Redis.get Client Service redis_get json_loads key st).2.1 = st.1
  ∧ (Redis.set Client Service redis_setex json_dumps_default_str
       key val expire st).2.1 = st.1
  ∧ (Redis.delete Client Service redis_delete key st).2.1 = st.1
  ∧ (Redis.clear_pattern Client Service redis_delete redis_keys
       pattern st).2.1 = st.1.
Proof.
  destruct st as [self srv]. cbn [fst].
  unfold Redis.get, Redis.set, Redis.delete, Redis.clear_pattern.
  destruct (Redis.connected self), (Redis.redis self) as [r|];
    try (repeat split; fail).
  repeat split.
  - destruct (redis_get r key srv) as [[[[|c rest]|]|e] srv'];
      try reflexivity.
    destruct (json_loads (String c rest)); reflexivity.
  - destruct (json_dumps_default_str val) as [json_value|e]; [|reflexivity].
    destruct (redis_setex r key expire json_value srv) as [[u|e] srv'];
      reflexivity.
  - destruct (redis_delete r [key] srv) as [[u|e] srv']; reflexivity.
  - destruct (redis_keys r pattern srv) as [[[|k ks]|e] srv'];
      try reflexivity.
    destruct (redis_delete r (k :: ks) srv') as [[u|e] srv'']; reflexivity.
Qed.

(** X21.  [connect] either ends with a client and the flag on, when the
    client could be made and answered the ping, or with no client and the
    flag off: then every operation degrades without touching the service.
    In both cases the flag is on exactly when there is a client.  The address
    is the environment variable, or the local default. *)
Theorem redis_connect_outcome (env_redis_url : option string) st :
  let redis_url := default "redis://localhost:6379" env_redis_url in
  let st' :=
    Redis.connect Client Service redis_from_url redis_ping env_redis_url st in
  (∀ r u srv',
     redis_from_url redis_url = Returned r →
     redis_ping r st.2 = (Returned u, srv') →
     st' = (Redis.Manager (Some r) true, srv'))
  ∧ ((∃ e, redis_from_url redis_url = Raised e)
     ∨ (∃ r e, redis_from_url redis_url = Returned r
               ∧ (redis_ping r st.2).1 = Raised e) →
     st'.1 = Redis.Manager None false
     ∧ ∀ key val expire,
         Redis.get Client Service redis_get json_loads key st'
           = (VNone, st')
         ∧ Redis.set Client Service redis_setex json_dumps_default_str
             key val expire st' = (false, st'))
  ∧ (Redis.connected st'.1 = true ↔ is_Some (Redis.redis st'.1)).
Proof.
  cbn zeta. destruct st as [self srv]. cbn [snd]. unfold Redis.connect.
  split; [|split].
  - intros r u srv' Hurl Hping. rewrite Hurl, Hping. reflexivity.
  - intros Hfail.
    assert ((match redis_from_url
                     (default "redis://localhost:6379" env_redis_url) with
             | Returned r =>
                 match redis_ping r srv with
                 | (Returned _, srv') => (Redis.Manager (Some r) true, srv')
                 | (Raised _, srv') => (Redis.Manager None false, srv')
                 end
             | Raised _ => (Redis.Manager None false, srv)
             end).1 = Redis.Manager None false) as Hoff.
    { destruct Hfail as [[e He] | (r & e & Hr & He)].
      - rewrite He. reflexivity.
      - rewrite Hr. destruct (redis_ping r srv) as [[u|e'] srv'];
          [discriminate He | reflexivity]. }
    split; [exact Hoff|]. intros key val expire.
    apply redis_disabled_degrades. exact (f_equal Redis.connected Hoff).
  - destruct (redis_from_url _) as [r|e].
    + destruct (redis_ping r srv) as [[u|e] srv']; cbn.
      * split; [eauto | reflexivity].
      * split; [discriminate | intros [? ?]; discriminate].
    + cbn. split; [discriminate | intros [? ?]; discriminate].
Qed.

(** X22.  [disconnect] is the one operation that lets an exception of the
    client escape, and then the manager is unchanged (still connected if it
    was); when it returns on a manager that has a client, the flag is off and
    [get] and [set] degrade without a command to the service.  The client is
    kept in every case. *)
Theorem redis_disconnect_outcome st key val expire :
  let reply := Redis.disconnect Client Service redis_close st in
  Redis.redis reply.2.1 = Redis.redis st.1
  ∧ (∀ e, reply.1 = Raised e → reply.2.1 = st.1)
  ∧ (∀ u, reply.1 = Returned u → is_Some (Redis.redis st.1) →
          Redis.connected reply.2.1 = false
          ∧ Redis.get Client Service redis_get json_loads key reply.2
            = (VNone, reply.2)
          ∧ Redis.set Client Service redis_setex json_dumps_default_str
              key val expire reply.2 = (false, reply.2)).
Proof.
  cbn zeta. destruct st as [self srv]. unfold Redis.disconnect. cbn [fst].
  destruct (Redis.redis self) as [r|] eqn:Hr.
  - destruct (redis_close r srv) as [[u|e] srv']; cbn [fst snd].
    + split; [reflexivity|]. split; [discriminate|]. intros _ _ _.
      split; [reflexivity|]. split; reflexivity.
    + split; [exact Hr|]. split; [reflexivity | discriminate].
  - cbn [fst snd]. split; [exact Hr|]. split; [discriminate|].
    intros _ _ [? ?]. discriminate.
Qed.


End redis_manager.

(** ** The further properties on concrete stores *)

(** A second [set] replaces the first; one with a ttl of [10^400] seconds
    fails and leaves the first in place. *)
Lemma set_overwrites_witness :
  (Simple.get (Float.rounded 5) "k"
     (Simple.set (Float.rounded 1) "k" (VInt 2) 10
        (Simple.set (Float.rounded 0) "k" (VInt 1) 300
           Simple.init).2).2).1 = VInt 2
  ∧ Simple.set (Float.rounded 1) "k" (VInt 2) (10 ^ 400)
      (Simple.set (Float.rounded 0) "k" (VInt 1) 300 Simple.init).2
    = (false, (Simple.set (Float.rounded 0) "k" (VInt 1) 300 Simple.init).2).
Proof.
  split.
  - destruct (set_overwrites Simple.init "k" (VInt 1) (VInt 2) 300 10
                (Float.rounded 0) (Float.rounded 1) (Float.rounded 5)
                eq_refl) as [Hstored _].
    destruct (Hstored (Float.rounded 11)) as (_ & _ & Hget);
      [vm_compute; reflexivity|].
    apply Hget. vm_compute. reflexivity.
  - destruct (set_overwrites Simple.init "k" (VInt 1) (VInt 2) 300
                (10 ^ 400) (Float.rounded 0) (Float.rounded 1)
                (Float.rounded 5) eq_refl) as [_ Hraise].
    apply (Hraise "int too large to convert to float").
    vm_compute. reflexivity.
Defined.

Lemma other_keys_untouched_witness :
  (Simple.get (Float.rounded 2) "a"
     (Simple.delete "b"
        (Simple.set (Float.rounded 0) "a" (VInt 1) 300 Simple.init).2).2).1
  = (Simple.get (Float.rounded 2) "a"
       (Simple.set (Float.rounded 0) "a" (VInt 1) 300 Simple.init).2).1.
Proof.
  apply (other_keys_untouched
           (Simple.set (Float.rounded 0) "a" (VInt 1) 300 Simple.init).2
           "b" "a" VNone 0 (Float.rounded 0) (Float.rounded 2)).
  discriminate.
Defined.

Lemma reads_do_not_refresh_witness :
  (Simple.get (Float.rounded 11) "k"
     (foldl (λ m t, (Simple.get t "k" m).2)
        (Simple.set (Float.rounded 0) "k" (VInt 1) 10 Simple.init).2
        [Float.rounded 1; Float.rounded 5; Float.rounded 10])).1
  = VNone.
Proof.
  destruct (reads_do_not_refresh
              (Simple.set (Float.rounded 0) "k" (VInt 1) 10 Simple.init).2
              "k"
              (Simple.CacheEntry (VInt 1) (Float.rounded 10)
                 (Float.rounded 0))
              [Float.rounded 1; Float.rounded 5; Float.rounded 10]
              eq_refl) as (_ & _ & Hlate).
  - vm_compute. reflexivity.
  - repeat constructor; vm_compute; reflexivity.
  - apply Hlate. vm_compute. reflexivity.
Defined.

Lemma clear_pattern_semantics_witness :
  Simple.cache
    (Simple.clear_pattern "a*c"
       (Simple.set (Float.rounded 0) "abc" (VInt 1) 300 Simple.init).2).2
    !! "abc"
  = Simple.cache
      (Simple.set (Float.rounded 0) "abc" (VInt 1) 300 Simple.init).2
      !! "abc".
Proof.
  destruct (clear_pattern_semantics
              (Simple.set (Float.rounded 0) "abc" (VInt 1) 300
                 Simple.init).2 "a*c" eq_refl)
    as [_ Hlook].
  rewrite Hlook. reflexivity.
Defined.

Lemma starry_pattern_clears_all_witness :
  Simple.cache
    (Simple.clear_pattern EmptyString
       (Simple.set (Float.rounded 0) "abc" (VInt 1) 300 Simple.init).2).2
  = ∅
  ∧ Simple.cache
      (Simple.clear_pattern "**"
         (Simple.set (Float.rounded 0) "abc" (VInt 1) 300 Simple.init).2).2
    = ∅.
Proof.
  split.
  - apply (starry_pattern_clears_all
             (Simple.set (Float.rounded 0) "abc" (VInt 1) 300 Simple.init).2
             EmptyString (Float.rounded 0) "abc" eq_refl eq_refl).
  - apply (starry_pattern_clears_all
             (Simple.set (Float.rounded 0) "abc" (VInt 1) 300 Simple.init).2
             "**" (Float.rounded 0) "abc" eq_refl eq_refl).
Defined.

Lemma sweep_matches_lazy_eviction_witness :
  (Simple.get (Float.rounded 20) "k"
     (Simple._cleanup_expired (Float.rounded 11)
        (Simple.set (Float.rounded 0) "k" (VInt 1) 10 Simple.init).2)).1
  = (Simple.get (Float.rounded 20) "k"
       (Simple.set (Float.rounded 0) "k" (VInt 1) 10 Simple.init).2).1.
Proof.
  apply (sweep_matches_lazy_eviction
           (Simple.set (Float.rounded 0) "k" (VInt 1) 10 Simple.init).2
           (Float.rounded 11)).
  vm_compute. reflexivity.
Defined.

Lemma sweep_after_sweep_witness :
  Simple._cleanup_expired (Float.rounded 11)
    (Simple._cleanup_expired (Float.rounded 5)
       (Simple.set (Float.rounded 0) "k" (VInt 1) 10 Simple.init).2)
  = Simple._cleanup_expired (Float.rounded 11)
      (Simple.set (Float.rounded 0) "k" (VInt 1) 10 Simple.init).2.
Proof.
  apply (sweep_after_sweep
           (Simple.set (Float.rounded 0) "k" (VInt 1) 10 Simple.init).2
           (Float.rounded 5) (Float.rounded 11)).
  vm_compute. reflexivity.
Defined.

Lemma stats_count_live_witness :
  Simple.keys
    (Simple.get_cache_stats (Float.rounded 11)
       (Simple.set (Float.rounded 0) "b" (VInt 2) 300
          (Simple.set (Float.rounded 0) "a" (VInt 1) 10 Simple.init).2).2).1
  + size (filter (λ kv, Float.gtb (Float.rounded 11)
                          (Simple.expires_at kv.2) = true)
            (Simple.cache
               (Simple.set (Float.rounded 0) "b" (VInt 2) 300
                  (Simple.set (Float.rounded 0) "a" (VInt 1) 10
                     Simple.init).2).2))
  = size (Simple.cache
            (Simple.set (Float.rounded 0) "b" (VInt 2) 300
               (Simple.set (Float.rounded 0) "a" (VInt 1) 10
                  Simple.init).2).2)
  ∧ Simple.get_cache_stats (Float.rounded 11)
      (Simple.disconnect Simple.init)
    = ({| Simple.status := "disconnected"; Simple.keys := 0 |},
       Simple.disconnect Simple.init).
Proof.
  destruct (stats_count_live
              (Simple.set (Float.rounded 0) "b" (VInt 2) 300
                 (Simple.set (Float.rounded 0) "a" (VInt 1) 10
                    Simple.init).2).2 (Float.rounded 11))
    as [Hon _].
  destruct (stats_count_live (Simple.disconnect Simple.init)
              (Float.rounded 11))
    as [_ Hoff].
  split; [apply (Hon eq_refl) | apply (Hoff eq_refl)].
Defined.

Lemma connect_and_disconnect_discard_witness :
  Simple.get (Float.rounded 1) "k"
    (Simple.connect
       (Simple.disconnect
          (Simple.set (Float.rounded 0) "k" (VInt 1) 300 Simple.init).2))
  = (VNone,
     Simple.connect
       (Simple.disconnect
          (Simple.set (Float.rounded 0) "k" (VInt 1) 300 Simple.init).2))
  ∧ (Simple.get (Float.rounded 2) "k"
       (Simple.set (Float.rounded 1) "k" (VInt 7) 300
          (Simple.connect
             (Simple.set (Float.rounded 0) "k" (VInt 1) 300
                Simple.init).2)).2).1 = VInt 7.
Proof.
  destruct (connect_and_disconnect_discard
              (Simple.set (Float.rounded 0) "k" (VInt 1) 300 Simple.init).2
              (Float.rounded 1) "k" (VInt 7) 300 (Float.rounded 2))
    as [_ (_ & _ & Hcycle & Hset)].
  split; [exact Hcycle|].
  destruct (Hset (Float.rounded 301)) as [_ Hget];
    [vm_compute; reflexivity|].
  apply Hget. vm_compute. reflexivity.
Defined.

Lemma invalidate_product_cache_scope_witness :
  Simple.cache
    (Simple.invalidate_product_cache
       (Simple.set (Float.rounded 0) "product:7" (VInt 1) 600
          Simple.init).2) !! "product:7"
  = None
  ∧ Simple.invalidate_product_cache (Simple.disconnect Simple.init)
    = Simple.disconnect Simple.init.
Proof.
  destruct (invalidate_product_cache_scope
              (Simple.set (Float.rounded 0) "product:7" (VInt 1) 600
                 Simple.init).2)
    as [Hon _].
  destruct (invalidate_product_cache_scope (Simple.disconnect Simple.init))
    as [_ Hoff].
  split; [|apply (Hoff eq_refl)].
  destruct (Hon eq_refl) as [_ Hlook]. rewrite Hlook. reflexivity.
Defined.

Lemma invalidate_user_cache_scope_witness :
  Simple.cache
    (Simple.invalidate_user_cache "1"
       (Simple.set (Float.rounded 0) "user:10:cart" (VInt 1) 300
          Simple.init).2)
    !! "user:10:cart"
  = Simple.cache
      (Simple.set (Float.rounded 0) "user:10:cart" (VInt 1) 300
         Simple.init).2
      !! "user:10:cart".
Proof.
  destruct (invalidate_user_cache_scope
              (Simple.set (Float.rounded 0) "user:10:cart" (VInt 1) 300
                 Simple.init).2 "1"
              eq_refl eq_refl) as [_ Hother].
  apply (Hother "10" "cart"); [reflexivity | reflexivity | discriminate].
Defined.

Lemma test_cache_reply_cases_witness :
  ∃ stats,
    (Server.test_cache true (Float.rounded 0) (Float.rounded 1)
       (Float.rounded 2) (Some Simple.init)).1
      = Server.CacheTest (VDict [("test", VStr "data")]) stats
    ∧ Simple.status stats = "connected"
    ∧ (1 ≤ Simple.keys stats)%nat.
Proof.
  destruct (test_cache_reply_cases Simple.init None (Float.rounded 0)
              (Float.rounded 1) (Float.rounded 2)) as [Hon _].
  destruct Hon as (stats & Hreply & Hstatus & Hkeys);
    [reflexivity | vm_compute; reflexivity |].
  exists stats. split; [exact Hreply|]. split; [exact Hstatus|].
  apply Hkeys. vm_compute. reflexivity.
Defined.

Lemma key_shape_and_separation_witness :
  _generate_key "products" [("a", VInt 1)]
  ≠ _generate_key "product" [("a", VInt 1)].
Proof.
  apply (key_shape_and_separation "products" "product"
           [("a", VInt 1)] [("a", VInt 1)]).
  discriminate.
Defined.


Lemma exception_is_not_cached_witness :
  cache_response "ns" 300 (counted (independent raises_error)) [] []
    (Float.rounded 0) (Float.rounded 0)
    (Simple.init, (0, tt))
  = (Raised "unavailable",
     ((Simple.get (Float.rounded 0) (wrapper_key "ns" [] [])
         Simple.init).2, (1, tt)))
  ∧ (cache_response "ns" 300 (counted (independent raises_error)) [] []
       (Float.rounded 1) (Float.rounded 1)
       ((Simple.get (Float.rounded 0) (wrapper_key "ns" [] [])
           Simple.init).2,
        (1, tt))).2.2.1 = 2.
Proof.
  destruct (exception_is_not_cached "ns" 300 raises_error [] []
              (Float.rounded 0) (Float.rounded 0)
              Simple.init 0 tt tt "unavailable") as [Hraise Hagain].
  - vm_compute. reflexivity.
  - reflexivity.
  - split; [exact Hraise | apply Hagain].
Defined.

Lemma expired_entry_is_recomputed_witness :
  (cache_response "ns" 300 (counted (independent counting_op)) [] []
     (Float.rounded 301) (Float.rounded 301)
     ((Simple.set (Float.rounded 0) (wrapper_key "ns" [] []) (VInt 1) 300
         Simple.init).2,
      (1, 1%Z))).1 = Returned (VInt 2).
Proof.
  destruct (expired_entry_is_recomputed "ns" 300 counting_op [] []
              (Float.rounded 0) (Float.rounded 0)
              (Float.rounded 301) (Float.rounded 301) (Float.rounded 300)
              Simple.init
              (Simple.set (Float.rounded 0) (wrapper_key "ns" [] [])
                 (VInt 1) 300 Simple.init).2
              0 0%Z 1%Z (VInt 1)) as [Hres _].
  - reflexivity.
  - vm_compute. reflexivity.
  - vm_compute. reflexivity.
  - vm_compute. reflexivity.
  - exact Hres.
Defined.

Lemma keyword_order_does_not_matter_witness :
  cache_response "ns" 300 (counted (independent counting_op)) []
    [("b", VInt 2); ("a", VInt 1)] (Float.rounded 1) (Float.rounded 1)
    ((Simple.set (Float.rounded 0)
        (wrapper_key "ns" [] [("a", VInt 1); ("b", VInt 2)])
        (VInt 1) 300 Simple.init).2, (1, 1%Z))
  = (Returned (VInt 1),
     ((Simple.set (Float.rounded 0)
         (wrapper_key "ns" [] [("a", VInt 1); ("b", VInt 2)])
         (VInt 1) 300 Simple.init).2, (1, 1%Z))).
Proof.
  destruct (keyword_order_does_not_matter "ns" 300 counting_op []
              [("a", VInt 1); ("b", VInt 2)] [("b", VInt 2); ("a", VInt 1)]
              (Float.rounded 0) (Float.rounded 0)
              (Float.rounded 1) (Float.rounded 1) (Float.rounded 300)
              Simple.init
              (Simple.set (Float.rounded 0)
                 (wrapper_key "ns" [] [("a", VInt 1); ("b", VInt 2)])
                 (VInt 1) 300 Simple.init).2
              0 0%Z 1%Z (VInt 1)) as [_ Hhit].
  - reflexivity.
  - apply (Json.same_dict _ [("b", VInt 2); ("a", VInt 1)]);
      [apply perm_swap | repeat constructor].
  - apply Hhit.
    + reflexivity.
    + vm_compute. reflexivity.
    + vm_compute. reflexivity.
    + discriminate.
    + vm_compute. reflexivity.
Defined.

Lemma invalidation_forces_recomputation_witness :
  (cache_response "products" 300 (counted (independent counting_op)) [] []
     (Float.rounded 1) (Float.rounded 1)
     (Simple.invalidate_product_cache
        (Simple.set (Float.rounded 0) (wrapper_key "products" [] [])
           (VInt 1) 300 Simple.init).2, (1, 1%Z))).2.2 = (2, 2%Z).
Proof.
  destruct (invalidation_forces_recomputation "products" 300 counting_op
              [] [] (Float.rounded 0) (Float.rounded 0)
              (Float.rounded 1) (Float.rounded 1) Simple.init
              (Simple.set (Float.rounded 0) (wrapper_key "products" [] [])
                 (VInt 1) 300 Simple.init).2
              0 0%Z 1%Z (VInt 1)) as [_ Hinv].
  - reflexivity.
  - reflexivity.
  - vm_compute. reflexivity.
  - apply Hinv. left. reflexivity.
Defined.

Lemma redis_connect_outcome_witness :
  (Redis.connect unit unit (λ _, Returned tt)
     (λ _ srv, (Raised "refused", srv)) None (Redis.init unit, tt)).1
  = Redis.Manager None false
  ∧ Redis.connect unit unit (λ _, Returned tt)
      (λ _ srv, (Returned tt, srv)) None (Redis.init unit, tt)
    = (Redis.Manager (Some tt) true, tt).
Proof.
  split.
  - destruct (redis_connect_outcome
                (λ _ _ srv, (Raised "unreachable", srv))
                (λ _ _ _ _ srv, (Raised "unreachable", srv))
                (λ _, Returned tt) (λ _ srv, (Raised "refused", srv))
                (λ _, Raised "not called") (λ _, Raised "not called")
                None (Redis.init unit, tt)) as (_ & Hfail & _).
    apply Hfail. right. exists tt, "refused". split; reflexivity.
  - destruct (redis_connect_outcome
                (λ _ _ srv, (Raised "unreachable", srv))
                (λ _ _ _ _ srv, (Raised "unreachable", srv))
                (λ _, Returned tt) (λ _ srv, (Returned tt, srv))
                (λ _, Raised "not called") (λ _, Raised "not called")
                None (Redis.init unit, tt)) as (Hok & _ & _).
    apply (Hok tt tt tt); reflexivity.
Defined.

Lemma redis_disconnect_outcome_witness :
  Redis.connected
    (Redis.disconnect unit unit (λ _ srv, (Returned tt, srv))
       (Redis.Manager (Some tt) true, tt)).2.1 = false
  ∧ (Redis.disconnect unit unit (λ _ srv, (Raised "broken pipe", srv))
       (Redis.Manager (Some tt) true, tt)).2.1
    = Redis.Manager (Some tt) true.
Proof.
  split.
  - destruct (redis_disconnect_outcome
                (λ _ _ srv, (Raised "unreachable", srv))
                (λ _ _ _ _ srv, (Raised "unreachable", srv))
                (λ _ srv, (Returned tt, srv))
                (λ _, Raised "not called") (λ _, Raised "not called")
                (Redis.Manager (Some tt) true, tt) "k" VNone 0)
      as (_ & _ & Hoff).
    apply (Hoff tt); [reflexivity | eexists; reflexivity].
  - destruct (redis_disconnect_outcome
                (λ _ _ srv, (Raised "unreachable", srv))
                (λ _ _ _ _ srv, (Raised "unreachable", srv))
                (λ _ srv, (Raised "broken pipe", srv))
                (λ _, Raised "not called") (λ _, Raised "not called")
                (Redis.Manager (Some tt) true, tt) "k" VNone 0)
      as (_ & Hraise & _).
    apply (Hraise "broken pipe"). reflexivity.
Defined.


(** A call in the namespace [product] leaves the entry of the namespace
    [products] as it was. *)
Lemma wrapper_touches_only_its_key_witness :
  Simple.cache
    (cache_response "product" 600 (independent counting_op) [] []
       (Float.rounded 1) (Float.rounded 1)
       ((Simple.set (Float.rounded 0) (wrapper_key "products" [] [])
           (VInt 1) 300 Simple.init).2, 0%Z)).2.1
    !! wrapper_key "products" [] []
  = Simple.cache
      (Simple.set (Float.rounded 0) (wrapper_key "products" [] []) (VInt 1)
         300 Simple.init).2 !! wrapper_key "products" [] [].
Proof.
  destruct (wrapper_touches_only_its_key "product" 600
              (independent counting_op) [] []
              (Float.rounded 1) (Float.rounded 1)
              (Simple.set (Float.rounded 0) (wrapper_key "products" [] [])
                 (VInt 1) 300 Simple.init).2 0%Z) as (_ & _ & Hother).
  apply (Hother "products" [] []); [discriminate|].
  vm_compute. reflexivity.
Defined.

(** ** Checks of the float model against known results *)

(** [0.1 + 1 == 1.1]: the sum is rounded, so that an entry stored at the
    clock reading [0.1] with a ttl of 1 second is still returned at the
    clock reading [1.1]. *)
Example float_sum_is_rounded :
  Float.add_int (S754_finite false 7205759403792794 (-56)) 1
  = Returned (S754_finite false 4953959590107546 (-52))
  ∧ (Simple.get (S754_finite false 4953959590107546 (-52)) "k"
       (Simple.set (S754_finite false 7205759403792794 (-56)) "k" (VInt 1) 1
          Simple.init).2).1 = VInt 1.
Proof. split; vm_compute; reflexivity. Qed.

(** The largest [int] that has a float, and the first that has none. *)
Example float_of_int_range :
  Float.of_int (2 ^ 1024 - 2 ^ 970 - 1)
  = Returned (S754_finite false 9007199254740991 971)
  ∧ Float.of_int (2 ^ 1024 - 2 ^ 970)
    = Raised "int too large to convert to float"
  ∧ Float.of_int (2 ^ 53 + 1)
    = Returned (S754_finite false 4503599627370496 1)
  ∧ Float.add_int (Float.rounded (2 ^ 60)) 1
    = Returned (Float.rounded (2 ^ 60)).
Proof. repeat split; vm_compute; reflexivity. Qed.

